(** * Comics API (main.py): a shallow embedding and its specification

    The service is a FastAPI application with three comic endpoints
    ([list_comics], [create_comic], [get_comic]), a serialisation helper
    ([serialize_document]) and a static demo data set ([_demo_comics]).
    Python dictionaries are finite maps from strings to values, the
    document store is an explicit state threaded through a small
    state-and-exception monad, and raised exceptions are values of [exn]. *)

From Stdlib Require Import ZArith NArith Ascii String List DecimalString.
From stdpp Require Import base option list gmap strings fin_maps.

Local Open Scope string_scope.
Local Open Scope Z_scope.

(** ** Python values that occur in comic documents *)

(** A [bson.ObjectId], identified by its 24-digit lower-case hexadecimal
    rendering (what [str(oid)] prints). *)
Record ObjectId := mkObjectId { oid_hex : string }.

(** A naive [datetime.datetime] (PyMongo decodes BSON dates as naive
    datetimes unless [tz_aware] is requested, which this service does not). *)
Record datetime := mkDatetime {
  dt_year : N; dt_month : N; dt_day : N;
  dt_hour : N; dt_minute : N; dt_second : N; dt_microsecond : N }.

(** The value kinds comic documents hold.  A Python float is never computed
    with in this program, so it is identified by its [repr] literal. *)
Inductive value :=
| VNone
| VStr (s : string)
| VInt (n : Z)
| VFloat (literal : string)
| VList (items : list string)
| VObjectId (oid : ObjectId)
| VDatetime (t : datetime).

#[global] Instance ObjectId_eq_dec : EqDecision ObjectId.
Proof. solve_decision. Defined.
#[global] Instance datetime_eq_dec : EqDecision datetime.
Proof. solve_decision. Defined.
#[global] Instance value_eq_dec : EqDecision value.
Proof. solve_decision. Defined.

(** A Python [dict] with string keys. *)
Abbreviation doc := (gmap string value).

(** ** Exceptions and results *)

(** Every constructor is a subclass of Python's [Exception]:
    [fastapi.HTTPException], FastAPI's [RequestValidationError] (raised
    while the request is parsed, before the handler runs), pydantic's
    [ValidationError], [bson.errors.InvalidId] and a PyMongo error. *)
Inductive exn :=
| HTTPException (status_code : Z) (detail : string)
| RequestValidationError
| ValidationError
| InvalidId
| StoreError.

Inductive result (A : Type) :=
| Ok (a : A)
| Raise (e : exn).
Arguments Ok {A} a.
Arguments Raise {A} e.

#[global] Instance result_ret : MRet result := fun A a => Ok a.
#[global] Instance result_bind : MBind result := fun A B f r =>
  match r with Ok a => f a | Raise e => Raise e end.

(** The status FastAPI answers with. *)
Definition http_status {A} (r : result A) : Z :=
  match r with
  | Ok _ => 200
  | Raise (HTTPException s _) => s
  | Raise RequestValidationError => 422
  | Raise _ => 500
  end.

(** ** Strings: [str], [repr], case folding, substring search *)

Definition is_hex_digit (c : ascii) : bool :=
  let n := N_of_ascii c in
  ((48 <=? n) && (n <=? 57) || (65 <=? n) && (n <=? 70)
   || (97 <=? n) && (n <=? 102))%N.

Definition lower_ascii (c : ascii) : ascii :=
  let n := N_of_ascii c in
  if ((65 <=? n) && (n <=? 90))%N then ascii_of_N (n + 32) else c.

Definition chars (s : string) : list ascii := list_ascii_of_string s.

Definition lower (s : string) : string :=
  string_of_list_ascii (map lower_ascii (chars s)).

Fixpoint is_prefix (p s : list ascii) : bool :=
  match p, s with
  | [], _ => true
  | a :: p', b :: s' => if Ascii.eqb a b then is_prefix p' s' else false
  | _ :: _, [] => false
  end.

Fixpoint is_infix (p s : list ascii) : bool :=
  is_prefix p s || match s with [] => false | _ :: s' => is_infix p s' end.

(** [needle.lower() in hay.lower()] *)
Definition ci_contains (needle hay : string) : bool :=
  is_infix (chars (lower needle)) (chars (lower hay)).

Definition str_of_N (n : N) : string := NilZero.string_of_uint (N.to_uint n).
Definition str_of_Z (z : Z) : string := NilZero.string_of_int (Z.to_int z).

Fixpoint zeros (n : nat) : string :=
  match n with O => "" | S n' => String "0" (zeros n') end.

(** ["%0<width>d" % n] *)
Definition pad_dec (width : nat) (n : N) : string :=
  let s := str_of_N n in
  zeros (width - String.length s) ++ s.

(** [datetime.isoformat(sep)] of a naive datetime. *)
Definition isoformat_sep (sep : string) (t : datetime) : string :=
  pad_dec 4 (dt_year t) ++ "-" ++ pad_dec 2 (dt_month t) ++ "-"
  ++ pad_dec 2 (dt_day t) ++ sep
  ++ pad_dec 2 (dt_hour t) ++ ":" ++ pad_dec 2 (dt_minute t) ++ ":"
  ++ pad_dec 2 (dt_second t)
  ++ (if (dt_microsecond t =? 0)%N then ""
      else "." ++ pad_dec 6 (dt_microsecond t)).

Definition isoformat (t : datetime) : string := isoformat_sep "T" t.

Definition hex_digit (n : N) : ascii :=
  ascii_of_N (if (n <? 10)%N then 48 + n else 87 + n).

Definition mem_ascii (c : ascii) (s : string) : bool :=
  existsb (Ascii.eqb c) (chars s).

Definition backslash : ascii := ascii_of_N 92.
Definition dquote : ascii := ascii_of_N 34.
Definition squote : ascii := ascii_of_N 39.

Definition escaped (c : ascii) : string := String backslash (String c "").

(** [repr] of a [str]: single quotes unless the text has a single and no
    double quote; backslash, the chosen quote and control characters are
    escaped. *)
Definition repr_char (quote c : ascii) : string :=
  let n := N_of_ascii c in
  if Ascii.eqb c backslash then escaped backslash
  else if Ascii.eqb c quote then escaped c
  else if (n =? 9)%N then escaped "t"
  else if (n =? 10)%N then escaped "n"
  else if (n =? 13)%N then escaped "r"
  else if ((n <? 32) || (n =? 127))%N
       then String backslash
              (String "x" (String (hex_digit (n / 16))
                             (String (hex_digit (n mod 16)) "")))
  else String c "".

Definition repr_str (s : string) : string :=
  let quote : ascii :=
    if mem_ascii squote s && negb (mem_ascii dquote s) then dquote else squote in
  String quote (String.concat "" (map (repr_char quote) (chars s)))
  ++ String quote "".

Fixpoint join (sep : string) (l : list string) : string :=
  match l with
  | [] => ""
  | [x] => x
  | x :: l' => x ++ sep ++ join sep l'
  end.

(** Python's [str(v)]. *)
Definition py_str (v : value) : string :=
  match v with
  | VNone => "None"
  | VStr s => s
  | VInt n => str_of_Z n
  | VFloat literal => literal
  | VList items => "[" ++ join ", " (map repr_str items) ++ "]"
  | VObjectId oid => oid_hex oid
  | VDatetime t => isoformat_sep " " t
  end.

(** [hasattr(v, "isoformat")] *)
Definition hasattr_isoformat (v : value) : bool :=
  match v with VDatetime _ => true | _ => false end.

(** [v.isoformat()] where the attribute exists. *)
Definition call_isoformat (v : value) : value :=
  match v with VDatetime t => VStr (isoformat t) | _ => v end.

(** [bson.ObjectId(s)] for a [str] argument: accepted when [s] is 24
    hexadecimal digits, [InvalidId] otherwise. *)
Definition ObjectId_of_str (s : string) : result ObjectId :=
  if (String.length s =? 24)%nat && forallb is_hex_digit (chars s)
  then Ok (mkObjectId (lower s))
  else Raise InvalidId.

(** ** serialize_document *)

(** The loop body of [serialize_document] for one key [k]. *)
Definition convert_timestamp (k : string) (out : doc) : doc :=
  match out !! k with
  | Some v => if hasattr_isoformat v then <[k := call_isoformat v]> out else out
  | None => out
  end.

(** [serialize_document(doc)], as a function of the dictionary's content:
    [out] starts as a copy of [doc], [_id] is popped and stored as a string
    under [id], then the two timestamp keys are converted. *)
Definition serialize_document (d : doc) : doc :=
  let out := d in
  let out :=
    match out !! "_id" with
    | Some v => <["id" := VStr (py_str v)]> (delete "_id" out)
    | None => out
    end in
  fold_left (fun out k => convert_timestamp k out)
            ["created_at"; "updated_at"] out.


(** *** The same function on the heap of dictionary objects

    Python dictionaries are mutable objects reached through references.  To
    state what [serialize_document] does to the object it is handed, the
    heap maps addresses to dictionary contents and every statement of the
    function acts on the object a reference points to. *)

Abbreviation heap := (gmap positive doc).

Definition heap_get (h : heap) (l : positive) : doc := default ∅ (h !! l).

(** [d.copy()]: a new object with the same items. *)
Definition dict_copy (l : positive) (h : heap) : positive * heap :=
  let l' := fresh (dom h) in (l', <[l' := heap_get h l]> h).

(** [k in d] *)
Definition dict_contains (l : positive) (k : string) (h : heap) : bool :=
  bool_decide (is_Some (heap_get h l !! k)).

(** [d[k]] *)
Definition dict_getitem (l : positive) (k : string) (h : heap) : option value :=
  heap_get h l !! k.

(** [d.pop(k)]: the value, and the object without the key. *)
Definition dict_pop (l : positive) (k : string) (h : heap)
  : option value * heap :=
  (heap_get h l !! k, alter (delete k) l h).

(** [d[k] = v] *)
Definition dict_setitem (l : positive) (k : string) (v : value) (h : heap)
  : heap :=
  alter (insert k v) l h.

Definition convert_timestamp_at (out : positive) (h : heap) (k : string) : heap :=
  if dict_contains out k h then
    match dict_getitem out k h with
    | Some v =>
        if hasattr_isoformat v
        then dict_setitem out k (call_isoformat v) h
        else h
    | None => h
    end
  else h.

(** [serialize_document(doc)] statement by statement; the result is the
    reference [out] and the heap the call leaves behind. *)
Definition serialize_document_at (doc_ref : positive) (h : heap)
  : positive * heap :=
  let '(out, h) := dict_copy doc_ref h in
  let h :=
    if dict_contains out "_id" h then
      match dict_pop out "_id" h with
      | (Some v, h) => dict_setitem out "id" (VStr (py_str v)) h
      | (None, h) => h
      end
    else h in
  let h := fold_left (convert_timestamp_at out) ["created_at"; "updated_at"] h in
  (out, h).

(** ** The demo data *)

Definition dict (items : list (string * value)) : doc := list_to_map items.

Definition _demo_comics : list doc :=
  [ dict [ ("id", VStr "demo-1");
           ("title", VStr "Nova City: Neon Nights");
           ("author", VStr "A. Sterling");
           ("genre", VStr "Sci-Fi");
           ("description", VStr "A rogue courier races through a glowing mega-city to stop a sentient virus.");
           ("cover_url", VStr "https://images.unsplash.com/photo-1534088568595-a066f410bcda?q=80&w=1200&auto=format&fit=crop");
           ("rating", VFloat "4.8");
           ("tags", VList ["cyberpunk"; "action"; "future"]) ];
    dict [ ("id", VStr "demo-2");
           ("title", VStr "Arcane Academy");
           ("author", VStr "M. Kato");
           ("genre", VStr "Fantasy");
           ("description", VStr "A misfit mage uncovers a conspiracy at a floating academy of spells.");
           ("cover_url", VStr "https://images.unsplash.com/photo-1549880338-65ddcdfd017b?q=80&w=1200&auto=format&fit=crop");
           ("rating", VFloat "4.6");
           ("tags", VList ["magic"; "school"; "adventure"]) ];
    dict [ ("id", VStr "demo-3");
           ("title", VStr "Starlight Rangers");
           ("author", VStr "J. Vega");
           ("genre", VStr "Adventure");
           ("description", VStr "Five unlikely heroes chart the unknown between galaxies.");
           ("cover_url", VStr "https://images.unsplash.com/photo-1472214103451-9374bd1c798e?q=80&w=1200&auto=format&fit=crop");
           ("rating", VFloat "4.7");
           ("tags", VList ["space"; "team"; "epic"]) ];
    dict [ ("id", VStr "demo-4");
           ("title", VStr "Crimson Streets");
           ("author", VStr "L. Noir");
           ("genre", VStr "Noir");
           ("description", VStr "A masked detective hunts the truth in rain-soaked alleys.");
           ("cover_url", VStr "https://images.unsplash.com/photo-1501785888041-af3ef285b470?q=80&w=1200&auto=format&fit=crop");
           ("rating", VFloat "4.4");
           ("tags", VList ["mystery"; "crime"; "vigilante"]) ] ].

(** [l[:n]], Python's slice with an upper bound only. *)
Definition py_slice_to {A} (l : list A) (n : Z) : list A :=
  if 0 <=? n then take (Z.to_nat n) l
  else take (length l - Z.to_nat (- n)) l.

(** ** The document store *)

(** A filter condition on one field: equality with a value, or
    [{"$regex": pattern, "$options": options}]. *)
Inductive cond :=
| CEq (v : value)
| CRegex (pattern options : string).

Abbreviation filter_dict := (gmap string cond).

(** The state behind an available [db] handle: the collections in insertion
    order, the next identifier the store hands out, and a schedule saying
    which of the coming store operations fail ([true] is a failure; an
    exhausted schedule means no further failure). *)
Record store := mkStore {
  collections : gmap string (list doc);
  next_oid : N;
  faults : list bool }.

Definition collection (s : store) (name : string) : list doc :=
  default [] (collections s !! name).

Fixpoint hex_digits (width : nat) (n : N) : list ascii :=
  match width with
  | O => []
  | S w => (hex_digits w (n / 16) ++ [hex_digit (n mod 16)])%list
  end.

Definition fresh_oid (n : N) : ObjectId :=
  mkObjectId (string_of_list_ascii (hex_digits 24 n)).

(** State and exceptions: a computation runs on the store and either
    returns or raises; what it wrote before raising stays written. *)
Definition M (A : Type) : Type := store → result A * store.

#[global] Instance M_ret : MRet M := fun A a s => (Ok a, s).
#[global] Instance M_bind : MBind M := fun A B f m s =>
  match m s with
  | (Ok a, s') => f a s'
  | (Raise e, s') => (Raise e, s')
  end.

Definition raise {A} (e : exn) : M A := fun s => (Raise e, s).

Definition lift {A} (r : result A) : M A := fun s => (r, s).

(** [try: body / except Exception: handler] *)
Definition try_except {A} (body : M A) (handler : exn → M A) : M A :=
  fun s =>
    match body s with
    | (Ok a, s') => (Ok a, s')
    | (Raise e, s') => handler e s'
    end.

(** [for x in l: body(x)] *)
Fixpoint for_each {A} (l : list A) (body : A → M unit) : M unit :=
  match l with
  | [] => mret tt
  | x :: l' => _ ← body x; for_each l' body
  end.

(** Reading from and writing to the state. *)
Definition query {A} (f : store → A) : M A := fun s => (Ok (f s), s).
Definition update {A} (f : store → A * store) : M A :=
  fun s => let '(a, s') := f s in (Ok a, s').

(** One round trip to the store, failing when the schedule says so. *)
Definition round_trip : M unit := fun s =>
  match faults s with
  | [] => (Ok tt, s)
  | failed :: rest =>
      let s' := mkStore (collections s) (next_oid s) rest in
      if failed then (Raise StoreError, s') else (Ok tt, s')
  end.

(** Concrete stand-ins for the engines the service relies on but does not
    contain, used to run the handlers on examples: a regular-expression
    search that reads its pattern as plain text, and number conversions
    that accept integers only. *)
Definition plain_text_search (pattern options subject : string) : bool :=
  if mem_ascii "i" options then ci_contains pattern subject
  else is_infix (chars pattern) (chars subject).

Definition int_to_float_literal (n : Z) : string := str_of_Z n ++ ".0".

Definition no_float_parse (s : string) : option string := None.

(** A pattern made of letters and digits only has no regular-expression
    operator in it. *)
Definition is_alnum (c : ascii) : bool :=
  let n := N_of_ascii c in
  ((48 <=? n) && (n <=? 57) || (65 <=? n) && (n <=? 90)
   || (97 <=? n) && (n <=? 122))%N.

Definition plain_pattern (p : string) : bool := forallb is_alnum (chars p).

(** Example data: a well-formed identifier that no document carries, and a
    stored comic with both timestamps. *)
Definition absent_id : string := "507f1f77bcf86cd799439011".

Definition stamped_comic : doc :=
  dict [ ("_id", VObjectId (mkObjectId "65a1b2c3d4e5f60718293a4b"));
         ("title", VStr "Arcane Academy");
         ("author", VStr "M. Kato");
         ("genre", VStr "Fantasy");
         ("created_at", VDatetime (mkDatetime 2024 1 5 3 4 5 0));
         ("updated_at", VDatetime (mkDatetime 2024 11 25 13 14 15 123000)) ].

Definition empty_store : store := mkStore ∅ 0 [].

Definition store_with (docs : list doc) : store :=
  mkStore {["comic" := docs]} 7 [].

(** What seeding leaves in an empty collection: the demo records in
    order, each under the identifier the store assigned to it, counting
    from [n]. *)
Fixpoint seeded_from (n : N) (cs : list doc) : list doc :=
  match cs with
  | [] => []
  | c :: cs' =>
      <["_id" := VObjectId (fresh_oid n)]> c :: seeded_from (n + 1) cs'
  end.

(** The store an empty one becomes once seeded, and the one answer it has
    for the query Arcane: the second demo record under its store
    identifier. *)
Definition seeded_store : store :=
  mkStore {["comic" := seeded_from 0 _demo_comics]} 4 [].

Definition arcane_answer : list doc :=
  [ <["id" := VStr "000000000000000000000001"]>
      (default ∅ (_demo_comics !! 1%nat)) ].

Definition untitled_body : doc :=
  dict [ ("author", VStr "M. Kato"); ("genre", VStr "Fantasy") ].

(** Two store states with the same documents and the same next
    identifier: they differ at most in the failures still to come. *)
Definition same_data (s s' : store) : Prop :=
  collections s' = collections s ∧ next_oid s' = next_oid s.

(** ** The liveness and diagnostic endpoints *)

Definition read_root : doc :=
  dict [("message", VStr "Hello from FastAPI Backend!")].

Definition hello : doc :=
  dict [("message", VStr "Hello from the backend API!")].

(** What [test_database] asks of the [db] handle: its [name] attribute, if
    it has one, and [list_collection_names()], which returns the names or
    raises an exception [e], given here by [str(e)]. *)
Record handle := mkHandle {
  handle_name : option string;
  list_collection_names : string + list string }.

(** Strings are UTF-8 bytes; a Python slice counts characters, each a lead
    byte followed by its continuation bytes. *)
Definition is_continuation_byte (c : ascii) : bool :=
  let n := N_of_ascii c in ((128 <=? n) && (n <? 192))%N.

Fixpoint take_chars (n : nat) (l : list ascii) : list ascii :=
  match l with
  | [] => []
  | c :: l' =>
      if is_continuation_byte c then c :: take_chars n l'
      else match n with
           | O => []
           | S n' => c :: take_chars n' l'
           end
  end.

(** [s[:n]] *)
Definition str_prefix (n : nat) (s : string) : string :=
  string_of_list_ascii (take_chars n (chars s)).

(** The number of characters of a UTF-8 byte string. *)
Definition char_count (l : list ascii) : nat :=
  length (filter (λ c, is_continuation_byte c = false) l).

(** Truthiness of [os.getenv(k)]: set, and not the empty string. *)
Definition is_set (o : option string) : bool :=
  match o with
  | Some s => negb (String.eqb s "")
  | None => false
  end.

Definition env_flag (getenv : string → option string) (k : string) : value :=
  VStr (if is_set (getenv k) then "✅ Set" else "❌ Not Set").

(** [test_database()], on the handle and the environment it reads.  Nothing
    in the outer [try] block raises outside the inner one, so the outer
    [except] has no case here. *)
Definition test_database (db : option handle) (getenv : string → option string)
  : doc :=
  let response : doc :=
    dict [ ("backend", VStr "✅ Running");
           ("database", VStr "❌ Not Available");
           ("database_url", VNone);
           ("database_name", VNone);
           ("connection_status", VStr "Not Connected");
           ("collections", VList []) ] in
  let response :=
    match db with
    | Some h =>
        let response := <["database" := VStr "✅ Available"]> response in
        let response := <["database_url" := VStr "✅ Configured"]> response in
        let response :=
          <["database_name" :=
              VStr (match handle_name h with
                    | Some name => name
                    | None => "✅ Connected"
                    end)]> response in
        let response := <["connection_status" := VStr "Connected"]> response in
        match list_collection_names h with
        | inr collections =>
            let response :=
              <["collections" := VList (take 10 collections)]> response in
            <["database" := VStr "✅ Connected & Working"]> response
        | inl message =>
            <["database" :=
                VStr ("⚠️  Connected but Error: " ++ str_prefix 50 message)]>
              response
        end
    | None =>
        <["database" := VStr "⚠️  Available but not initialized"]> response
    end in
  let response :=
    <["database_url" := env_flag getenv "DATABASE_URL"]> response in
  let response :=
    <["database_name" := env_flag getenv "DATABASE_NAME"]> response in
  response.

Section Service.

(** The store's regular-expression search, [regex_search pattern options
    subject], and pydantic's lax conversions of an [int] and of a [str]
    to a [float] are engines outside this repository. *)
Variable regex_search : string → string → string → bool.
Variable float_of_int : Z → string.
Variable float_of_str : string → option string.

(** *** pydantic models *)

Record ComicResponse := mkComicResponse {
  id : string;
  title : string;
  author : string;
  genre : string;
  description : option string;
  cover_url : option string;
  rating : option string;
  tags : option (list string) }.

(** Field validators.  A [str] field takes a [str]; an [Optional] field
    also takes [None] or may be left out; a [float] field takes a float,
    an int or a numeric string.  Keys that name no field are ignored. *)
Definition required_str (kw : doc) (k : string) : result string :=
  match kw !! k with
  | Some (VStr s) => Ok s
  | _ => Raise ValidationError
  end.

Definition optional_str (kw : doc) (k : string) : result (option string) :=
  match kw !! k with
  | None | Some VNone => Ok None
  | Some (VStr s) => Ok (Some s)
  | Some _ => Raise ValidationError
  end.

Definition optional_float (kw : doc) (k : string) : result (option string) :=
  match kw !! k with
  | None | Some VNone => Ok None
  | Some (VFloat f) => Ok (Some f)
  | Some (VInt n) => Ok (Some (float_of_int n))
  | Some (VStr s) =>
      match float_of_str s with
      | Some f => Ok (Some f)
      | None => Raise ValidationError
      end
  | Some _ => Raise ValidationError
  end.

Definition optional_str_list (kw : doc) (k : string)
  : result (option (list string)) :=
  match kw !! k with
  | None | Some VNone => Ok None
  | Some (VList l) => Ok (Some l)
  | Some _ => Raise ValidationError
  end.

(** The constructor call of [ComicResponse] with the items of [kw] as
    keyword arguments. *)
Definition ComicResponse_new (kw : doc) : result ComicResponse :=
  i ← required_str kw "id";
  t ← required_str kw "title";
  a ← required_str kw "author";
  g ← required_str kw "genre";
  d ← optional_str kw "description";
  c ← optional_str kw "cover_url";
  r ← optional_float kw "rating";
  ts ← optional_str_list kw "tags";
  mret (mkComicResponse i t a g d c r ts).

Definition dump_opt {A} (f : A → value) (o : option A) : value :=
  match o with Some a => f a | None => VNone end.

(** [ComicResponse.model_dump()]: every declared field, and nothing else. *)
Definition model_dump (c : ComicResponse) : doc :=
  dict [ ("id", VStr (id c));
         ("title", VStr (title c));
         ("author", VStr (author c));
         ("genre", VStr (genre c));
         ("description", dump_opt VStr (description c));
         ("cover_url", dump_opt VStr (cover_url c));
         ("rating", dump_opt VFloat (rating c));
         ("tags", dump_opt VList (tags c)) ].

(** Modelled from the spec: [schemas.Comic], the write schema that
    [ComicCreate] subclasses without change (schemas.py is not part of the
    sources).  Per the spec, [title], [author] and [genre] are required
    strings; [description], [cover_url], [rating] and [tags] are
    optional. *)
Record ComicCreate := mkComicCreate {
  new_title : string;
  new_author : string;
  new_genre : string;
  new_description : option string;
  new_cover_url : option string;
  new_rating : option string;
  new_tags : option (list string) }.

(** Modelled from the spec: validation of a request body against
    [ComicCreate]; a body missing a required field is refused. *)
Definition ComicCreate_new (body : doc) : result ComicCreate :=
  t ← required_str body "title";
  a ← required_str body "author";
  g ← required_str body "genre";
  d ← optional_str body "description";
  c ← optional_str body "cover_url";
  r ← optional_float body "rating";
  ts ← optional_str_list body "tags";
  mret (mkComicCreate t a g d c r ts).

Definition ComicCreate_dump (p : ComicCreate) : doc :=
  dict [ ("title", VStr (new_title p));
         ("author", VStr (new_author p));
         ("genre", VStr (new_genre p));
         ("description", dump_opt VStr (new_description p));
         ("cover_url", dump_opt VStr (new_cover_url p));
         ("rating", dump_opt VFloat (new_rating p));
         ("tags", dump_opt VList (new_tags p)) ].

(** What [create_document] is handed: a plain dictionary (seeding) or a
    validated model (the write endpoint). *)
Inductive ComicLike :=
| FromDict (d : doc)
| FromModel (p : ComicCreate).

Definition fields_of (data : ComicLike) : doc :=
  match data with
  | FromDict d => d
  | FromModel p => ComicCreate_dump p
  end.

(** *** Store operations *)

Definition cond_holds (c : cond) (v : value) : bool :=
  match c with
  | CEq w => bool_decide (v = w)
  | CRegex pattern options =>
      match v with
      | VStr s => regex_search pattern options s
      | _ => false
      end
  end.

(** A document matches a filter when every condition holds of the field
    it names. *)
Definition matches (filt : filter_dict) (d : doc) : bool :=
  forallb (fun '(k, c) =>
             match d !! k with
             | Some v => cond_holds c v
             | None => false
             end)
          (map_to_list filt).

(** PyMongo's [db[name].count_documents(filt)]. *)
Definition count_documents (name : string) (filt : filter_dict) : M Z :=
  _ ← round_trip;
  query (λ s, Z.of_nat (length (filter (λ d, matches filt d = true)
                                       (collection s name)))).

(** PyMongo's [db[name].find_one(filt)]: the first match, or [None]. *)
Definition find_one (name : string) (filt : filter_dict) : M (option doc) :=
  _ ← round_trip;
  query (λ s, head (filter (λ d, matches filt d = true) (collection s name))).

(** Modelled from the spec: [create_document(collection, data)] of
    database.py, which is not part of the sources.  It inserts a new
    document into the named collection and returns the newly assigned
    identifier as a string; a failing write propagates the store's
    error. *)
Definition create_document (name : string) (data : ComicLike) : M string :=
  _ ← round_trip;
  update (λ s,
     let oid := fresh_oid (next_oid s) in
     let d := <["_id" := VObjectId oid]> (fields_of data) in
     (py_str (VObjectId oid),
      mkStore (<[name := (collection s name ++ [d])%list]> (collections s))
              (next_oid s + 1)%N (faults s))).

(** Modelled from the spec: [get_documents(collection, filter, limit)] of
    database.py, which is not part of the sources.  It returns up to
    [limit] documents matching [filter], in the store's order; no match
    gives the empty sequence. *)
Definition get_documents (name : string) (filt : filter_dict) (limit : Z)
  : M (list doc) :=
  _ ← round_trip;
  query (λ s, take (Z.to_nat limit)
                   (filter (λ d, matches filt d = true) (collection s name))).

(** *** Handlers *)

(** Python truthiness of an [Optional[str]]. *)
Definition truthy (o : option string) : option string :=
  match o with
  | Some s => if String.eqb s "" then None else Some s
  | None => None
  end.

(** The seeding block of [list_comics]. *)
Definition seed_if_empty : M unit :=
  try_except
    (count ← count_documents "comic" ∅;
     if count =? 0
     then for_each _demo_comics
                   (λ c, _ ← create_document "comic" (FromDict c); mret tt)
     else mret tt)
    (λ _, mret tt).

(** The filter [list_comics] builds from [q] and [genre]. *)
Definition build_filter (q genre : option string) : filter_dict :=
  let filt : filter_dict := ∅ in
  let filt :=
    match truthy q with
    | Some q => <["title" := CRegex q "i"]> filt
    | None => filt
    end in
  match truthy genre with
  | Some g => <["genre" := CEq (VStr g)]> filt
  | None => filt
  end.

(** The list comprehension building one dumped [ComicResponse] per element
    of [l], each from the keywords [prepare d]. *)
Definition dump_all (prepare : doc → doc) (l : list doc) : result (list doc) :=
  mapM (λ d, c ← ComicResponse_new (prepare d); mret (model_dump c)) l.

(** The read of [list_comics]: filter, query, serialise. *)
Definition read_comics (q genre : option string) (limit : Z) : M (list doc) :=
  docs ← get_documents "comic" (build_filter q genre) limit;
  lift (dump_all serialize_document docs).

Definition list_comics_store (q genre : option string) (limit : Z)
  : M (list doc) :=
  _ ← seed_if_empty;
  read_comics q genre limit.

Definition run {A} (m : M A) (s : store) : result A * option store :=
  let '(r, s') := m s in (r, Some s').

(** [list_comics(q, genre, limit)]; [db] is [None] when the store is
    unavailable. *)
Definition list_comics (db : option store) (q genre : option string)
                       (limit : Z) : result (list doc) * option store :=
  match db with
  | None =>
      let sample := _demo_comics in
      (dump_all (λ c, c) (py_slice_to sample limit), None)
  | Some s => run (list_comics_store q genre limit) s
  end.

(** [create_comic(payload)] *)
Definition create_comic (db : option store) (payload : ComicCreate)
  : result doc * option store :=
  match db with
  | None => (Raise (HTTPException 503 "Database not available"), None)
  | Some s =>
      run (new_id ← create_document "comic" (FromModel payload);
           mret (dict [("id", VStr new_id)])) s
  end.

Fixpoint demo_search (l : list doc) (comic_id : string)
  : result ComicResponse :=
  match l with
  | [] => Raise (HTTPException 404 "Comic not found")
  | c :: l' =>
      if bool_decide (c !! "id" = Some (VStr comic_id))
      then ComicResponse_new c
      else demo_search l' comic_id
  end.

(** [get_comic(comic_id)] *)
Definition get_comic (db : option store) (comic_id : string)
  : result ComicResponse * option store :=
  match db with
  | None => (demo_search _demo_comics comic_id, None)
  | Some s =>
      run (try_except
             (oid ← lift (ObjectId_of_str comic_id);
              found ← find_one "comic" {["_id" := CEq (VObjectId oid)]};
              match found with
              | None => raise (HTTPException 404 "Comic not found")
              | Some d =>
                  if bool_decide (d = ∅)
                  then raise (HTTPException 404 "Comic not found")
                  else lift (ComicResponse_new (serialize_document d))
              end)
             (λ _, raise (HTTPException 400 "Invalid comic id"))) s
  end.

(** *** Endpoints: what FastAPI does around the handlers *)

(** [GET /api/comics]: [limit] is [Query(24, ge=1, le=100)]. *)
Definition GET_comics (db : option store) (q genre : option string)
                      (limit : option Z) : result (list doc) * option store :=
  let limit := default 24 limit in
  if (1 <=? limit) && (limit <=? 100)
  then list_comics db q genre limit
  else (Raise RequestValidationError, db).

(** [POST /api/comics]: the body is validated into a [ComicCreate] before
    the handler is called. *)
Definition POST_comics (db : option store) (body : doc)
  : result doc * option store :=
  match ComicCreate_new body with
  | Ok payload => create_comic db payload
  | Raise _ => (Raise RequestValidationError, db)
  end.

(** [GET /api/comics/{comic_id}]: the returned model is rendered with all
    its fields. *)
Definition GET_comic (db : option store) (comic_id : string)
  : result doc * option store :=
  let '(r, db') := get_comic db comic_id in
  (c ← r; mret (model_dump c), db').


(** * Properties *)

(** ** serialize_document *)

Lemma convert_timestamp_lookup (k k' : string) (out : doc) :
  convert_timestamp k out !! k'
  = if decide (k = k') then call_isoformat <$> (out !! k) else out !! k'.
Proof.
  unfold convert_timestamp.
  destruct (out !! k) as [v|] eqn:E.
  - destruct (hasattr_isoformat v) eqn:Hv.
    + rewrite lookup_insert. case_decide; [done | done].
    + case_decide; subst; [|done].
      rewrite E. destruct v; simpl in *; congruence.
  - case_decide; subst; [by rewrite E | done].
Qed.

Lemma serialize_document_lookup (d : doc) (k : string) :
  serialize_document d !! k
  = if decide (k = "_id") then None
    else if decide (k = "id")
         then match d !! "_id" with
              | Some v => Some (VStr (py_str v))
              | None => d !! "id"
              end
    else if decide (k = "created_at") then call_isoformat <$> (d !! k)
    else if decide (k = "updated_at") then call_isoformat <$> (d !! k)
    else d !! k.
Proof.
  unfold serialize_document. simpl.
  rewrite !convert_timestamp_lookup.
  destruct (d !! "_id") as [v|] eqn:E.
  - repeat case_decide; subst; try done;
      rewrite ?lookup_insert_ne, ?lookup_delete_ne, ?lookup_insert_eq,
              ?lookup_delete_eq by done; done.
  - repeat case_decide; subst; try done.
Qed.

Lemma serialize_document_no_id (d : doc) : serialize_document d !! "_id" = None.
Proof. by rewrite serialize_document_lookup. Qed.

Lemma heap_get_insert (h : heap) (l : positive) (d : doc) :
  heap_get (<[l := d]> h) l = d.
Proof. unfold heap_get. by rewrite lookup_insert_eq. Qed.

Lemma setitem_insert (h : heap) (l : positive) (d : doc) k v :
  dict_setitem l k v (<[l := d]> h) = <[l := <[k := v]> d]> h.
Proof.
  unfold dict_setitem. apply map_eq. intros i.
  destruct (decide (i = l)) as [->|].
  - by rewrite lookup_alter_eq, !lookup_insert_eq.
  - by rewrite lookup_alter_ne, !lookup_insert_ne.
Qed.

Lemma convert_timestamp_at_insert (h : heap) (l : positive) (d : doc) k :
  convert_timestamp_at l (<[l := d]> h) k = <[l := convert_timestamp k d]> h.
Proof.
  unfold convert_timestamp_at, convert_timestamp, dict_contains, dict_getitem.
  rewrite heap_get_insert.
  destruct (d !! k) as [v|] eqn:E.
  - rewrite bool_decide_eq_true_2 by eauto.
    destruct (hasattr_isoformat v); [apply setitem_insert | done].
  - rewrite bool_decide_eq_false_2; [done|]. by intros [? ?].
Qed.

(** The statement-by-statement run allocates one new object, whose final
    content is [serialize_document] of the argument's content. *)
Lemma serialize_document_at_spec (h : heap) (l : positive) :
  serialize_document_at l h
  = (fresh (dom h), <[fresh (dom h) := serialize_document (heap_get h l)]> h).
Proof.
  unfold serialize_document_at, dict_copy, serialize_document.
  set (out := fresh (dom h)). set (d := heap_get h l).
  f_equal.
  assert (Hid :
    (if dict_contains out "_id" (<[out := d]> h)
     then match dict_pop out "_id" (<[out := d]> h) with
          | (Some v, h0) => dict_setitem out "id" (VStr (py_str v)) h0
          | (None, h0) => h0
          end
     else <[out := d]> h)
    = <[out := match d !! "_id" with
               | Some v => <["id" := VStr (py_str v)]> (delete "_id" d)
               | None => d
               end]> h).
  { unfold dict_contains, dict_pop. rewrite heap_get_insert.
    destruct (d !! "_id") as [v|] eqn:E.
    - rewrite bool_decide_eq_true_2 by eauto.
      replace (alter (delete "_id") out (<[out := d]> h))
        with (<[out := delete "_id" d]> h).
      + apply setitem_insert.
      + apply map_eq. intros i. destruct (decide (i = out)) as [->|].
        * by rewrite lookup_alter_eq, !lookup_insert_eq.
        * by rewrite lookup_alter_ne, !lookup_insert_ne.
    - rewrite bool_decide_eq_false_2; [done|]. by intros [? ?]. }
  rewrite Hid. simpl. by rewrite !convert_timestamp_at_insert.
Qed.

(** C10.  [serialize_document] does not mutate its argument.  Whatever
    dictionary object [l] the call is handed, that object has the same
    content afterwards; the result is a different, newly allocated object;
    no other object on the heap is touched; and the returned dictionary has
    no [_id] key. *)
Theorem serialize_document_no_mutation (h : heap) (l : positive) (d : doc) :
  h !! l = Some d →
  ∃ out h' res,
    serialize_document_at l h = (out, h')
    ∧ h' !! l = Some d
    ∧ out ≠ l
    ∧ h !! out = None
    ∧ (∀ l', l' ≠ out → h' !! l' = h !! l')
    ∧ h' !! out = Some res
    ∧ res = serialize_document d
    ∧ res !! "_id" = None.
Proof.
  intros Hl.
  assert (Hfresh : h !! fresh (dom h) = None).
  { apply not_elem_of_dom. apply is_fresh. }
  assert (Hne : fresh (dom h) ≠ l) by (intros E; rewrite E in Hfresh; congruence).
  exists (fresh (dom h)), (<[fresh (dom h) := serialize_document d]> h),
         (serialize_document d).
  rewrite serialize_document_at_spec. unfold heap_get. rewrite Hl. simpl.
  repeat split; try done.
  - by rewrite lookup_insert_ne.
  - intros l' Hl'. by rewrite lookup_insert_ne.
  - by rewrite lookup_insert_eq.
  - apply serialize_document_no_id.
Qed.

(** ** pydantic models *)

Lemma model_dump_lookup (c : ComicResponse) (k : string) :
  model_dump c !! k
  = if decide (k = "id") then Some (VStr (id c))
    else if decide (k = "title") then Some (VStr (title c))
    else if decide (k = "author") then Some (VStr (author c))
    else if decide (k = "genre") then Some (VStr (genre c))
    else if decide (k = "description") then Some (dump_opt VStr (description c))
    else if decide (k = "cover_url") then Some (dump_opt VStr (cover_url c))
    else if decide (k = "rating") then Some (dump_opt VFloat (rating c))
    else if decide (k = "tags") then Some (dump_opt VList (tags c))
    else None.
Proof.
  unfold model_dump, dict. simpl.
  repeat (case_decide; [subst; by rewrite ?lookup_insert_ne, ?lookup_insert_eq by done|]).
  by rewrite !lookup_insert_ne, lookup_empty by done.
Qed.

Lemma bind_Ok {A B} (r : result A) (f : A → result B) (b : B) :
  r ≫= f = Ok b → ∃ a, r = Ok a ∧ f a = Ok b.
Proof. destruct r as [a|e]; [eauto | discriminate]. Qed.

Lemma required_str_Ok kw k s :
  required_str kw k = Ok s → kw !! k = Some (VStr s).
Proof.
  unfold required_str. destruct (kw !! k) as [[]|]; try discriminate.
  by intros [= ->].
Qed.

(** A successful construction read the four required fields off the
    keywords. *)
Lemma ComicResponse_new_Ok kw c :
  ComicResponse_new kw = Ok c →
  kw !! "id" = Some (VStr (id c)) ∧ kw !! "title" = Some (VStr (title c))
  ∧ kw !! "author" = Some (VStr (author c))
  ∧ kw !! "genre" = Some (VStr (genre c)).
Proof.
  unfold ComicResponse_new. intros H.
  repeat (apply bind_Ok in H as (? & ? & H)).
  injection H as <-. simpl.
  repeat split; by apply required_str_Ok.
Qed.

(** C2 (as amended).  [serialize_document] renders each of [created_at] and
    [updated_at] that is present as an ISO-8601 string when the value has
    [isoformat] and passes it through unchanged otherwise, and replaces the
    native identifier [_id] by [id], holding [str(_id)].  The response built
    from the serialised document through [ComicResponse] carries that [id]
    as a plain string and exactly the eight declared fields: [created_at],
    [updated_at] and [_id] are not part of it. *)
Theorem serialize_document_normalizes (d : doc) :
  serialize_document d !! "created_at" = call_isoformat <$> (d !! "created_at")
  ∧ serialize_document d !! "updated_at" = call_isoformat <$> (d !! "updated_at")
  ∧ (∀ t, call_isoformat (VDatetime t) = VStr (isoformat t))
  ∧ (∀ v, hasattr_isoformat v = true ∨ call_isoformat v = v)
  ∧ serialize_document d !! "_id" = None
  ∧ serialize_document d !! "id"
    = match d !! "_id" with
      | Some v => Some (VStr (py_str v))
      | None => d !! "id"
      end
  ∧ match ComicResponse_new (serialize_document d) with
    | Ok c =>
        model_dump c !! "id" = serialize_document d !! "id"
        ∧ dom (model_dump c)
          = list_to_set ["id"; "title"; "author"; "genre"; "description";
                         "cover_url"; "rating"; "tags"]
        ∧ model_dump c !! "created_at" = None
        ∧ model_dump c !! "updated_at" = None
        ∧ model_dump c !! "_id" = None
    | Raise _ => True
    end.
Proof.
  rewrite !serialize_document_lookup. simpl.
  repeat split; try done.
  - intros v. destruct v; auto.
  - destruct (ComicResponse_new (serialize_document d)) as [c|] eqn:E; [|done].
    apply ComicResponse_new_Ok in E as (Hid & _).
    rewrite serialize_document_lookup in Hid. simpl in Hid.
    rewrite !model_dump_lookup. simpl. repeat split; done.
Qed.

(** ** The store monad *)

Lemma round_trip_cases (s : store) :
  (round_trip s = (Ok tt, mkStore (collections s) (next_oid s) (tail (faults s)))
   ∧ hd false (faults s) = false
   ∧ (faults s = [] → round_trip s = (Ok tt, s)))
  ∨ (round_trip s
     = (Raise StoreError, mkStore (collections s) (next_oid s) (tail (faults s)))
     ∧ hd false (faults s) = true).
Proof.
  unfold round_trip. destruct s as [cs n [|[] fs]]; simpl;
    [left | right | left]; repeat split; done.
Qed.

Lemma round_trip_collection (s : store) name :
  collection (round_trip s).2 name = collection s name.
Proof.
  unfold round_trip. destruct (faults s) as [|[] fs]; done.
Qed.

(** ** get_comic *)

(** C1.  With the store available, [get_comic] answers 400 "Invalid comic
    id" to a malformed identifier.  The 404 it raises for a well-formed
    identifier that matches no document is raised inside the [try] block and
    caught by its [except Exception], so it too leaves the handler as 400
    "Invalid comic id": whatever the store holds, the handler either returns
    a comic or fails with that 400, and [absent_id], well-formed and absent
    from the empty store, gets 400 and not 404.  Without a store the same
    identifier gets the 404 of the demo branch, whose [raise] stands outside
    any [try]. *)
Theorem get_comic_not_found_reported_as_invalid :
  (∀ s comic_id,
     match ObjectId_of_str comic_id with
     | Raise _ =>
         (get_comic (Some s) comic_id).1
         = Raise (HTTPException 400 "Invalid comic id")
     | Ok _ => True
     end)
  ∧ (∀ s comic_id,
       (∃ c, (get_comic (Some s) comic_id).1 = Ok c)
       ∨ (get_comic (Some s) comic_id).1
         = Raise (HTTPException 400 "Invalid comic id"))
  ∧ (∃ oid, ObjectId_of_str absent_id = Ok oid)
  ∧ get_comic (Some empty_store) absent_id
    = (Raise (HTTPException 400 "Invalid comic id"), Some empty_store)
  ∧ http_status (get_comic (Some empty_store) absent_id).1 = 400
  ∧ get_comic None absent_id
    = (Raise (HTTPException 404 "Comic not found"), None).
Proof.
  split; [|split; [|split; [|split; [|split]]]].
  - intros s comic_id. unfold get_comic, run, try_except, lift.
    destruct (ObjectId_of_str comic_id) eqn:E; [done|].
    reflexivity.
  - intros s comic_id. unfold get_comic, run, try_except.
    match goal with |- context [match ?b s with _ => _ end] =>
      destruct (b s) as [[c|e] s'] eqn:E end; simpl; eauto.
  - eexists. vm_compute. reflexivity.
  - vm_compute. reflexivity.
  - vm_compute. reflexivity.
  - vm_compute. reflexivity.
Qed.

(** ** Building the response list *)

Lemma bind_Raise {A B} (r : result A) (f : A → result B) (e : exn) :
  r ≫= f = Raise e → r = Raise e ∨ ∃ a, r = Ok a ∧ f a = Raise e.
Proof.
  destruct r as [a|e']; intros H; [right; eauto | left].
  injection H as ->. reflexivity.
Qed.

Lemma required_str_error kw k e :
  required_str kw k = Raise e → e = ValidationError.
Proof. unfold required_str. destruct (kw !! k) as [[]|]; congruence. Qed.

Lemma optional_str_error kw k e :
  optional_str kw k = Raise e → e = ValidationError.
Proof. unfold optional_str. destruct (kw !! k) as [[]|]; congruence. Qed.

Lemma optional_float_error kw k e :
  optional_float kw k = Raise e → e = ValidationError.
Proof.
  unfold optional_float.
  destruct (kw !! k) as [[| s | | | | |]|]; try congruence.
  destruct (float_of_str s); congruence.
Qed.

Lemma optional_str_list_error kw k e :
  optional_str_list kw k = Raise e → e = ValidationError.
Proof. unfold optional_str_list. destruct (kw !! k) as [[]|]; congruence. Qed.

Lemma ComicResponse_new_error kw e :
  ComicResponse_new kw = Raise e → e = ValidationError.
Proof.
  unfold ComicResponse_new. intros H.
  repeat (apply bind_Raise in H as [H|(? & _ & H)];
          [eauto using required_str_error, optional_str_error,
             optional_float_error, optional_str_list_error|]).
  discriminate.
Qed.

Lemma dump_all_cases (f : doc → doc) (l : list doc) :
  (∃ rs, dump_all f l = Ok rs ∧ length rs = length l)
  ∨ dump_all f l = Raise ValidationError.
Proof.
  unfold dump_all. induction l as [|d l IH]; simpl.
  - left. by exists [].
  - destruct (ComicResponse_new (f d)) as [c|e] eqn:E; simpl.
    + destruct IH as [(rs & -> & Hlen) | ->]; simpl; [|by right].
      left. exists (model_dump c :: rs). simpl. by rewrite Hlen.
    + right. by rewrite (ComicResponse_new_error _ _ E).
Qed.

Lemma dump_all_ok (f : doc → doc) (l : list doc) :
  Forall (λ d, ∃ c, ComicResponse_new (f d) = Ok c) l →
  ∃ rs, dump_all f l = Ok rs.
Proof.
  unfold dump_all. induction 1 as [|d l [c Hc] _ [rs IH]]; simpl.
  - by exists [].
  - rewrite Hc. simpl. rewrite IH. simpl. by eexists.
Qed.

Lemma dump_all_elem (f : doc → doc) (l rs : list doc) (r : doc) :
  dump_all f l = Ok rs → r ∈ rs →
  ∃ d c, d ∈ l ∧ ComicResponse_new (f d) = Ok c ∧ r = model_dump c.
Proof.
  unfold dump_all. revert rs. induction l as [|d l IH]; simpl; intros rs H Hr.
  - injection H as <-. by apply elem_of_nil in Hr.
  - apply bind_Ok in H as (y & Hy & H).
    apply bind_Ok in Hy as (c & Hc & [= <-]).
    apply bind_Ok in H as (k & Hk & [= <-]).
    apply elem_of_cons in Hr as [->|Hr].
    + exists d, c. split; [left | done].
    + destruct (IH k Hk Hr) as (d' & c' & ? & ? & ?).
      exists d', c'. split; [by right | done].
Qed.

(** Each demo record has exactly the fields of a [ComicResponse], so the
    dumped model is the record itself. *)
Lemma demo_prefix_dump (n : nat) :
  dump_all (λ c, c) (take n _demo_comics) = Ok (take n _demo_comics).
Proof.
  destruct n as [|[|[|[|[|n]]]]]; vm_compute; reflexivity.
Qed.

Lemma demo_length : length _demo_comics = 4%nat.
Proof. reflexivity. Qed.

(** ** list_comics without a store *)

Lemma demo_fallback_eq (q genre : option string) (limit : Z) :
  1 ≤ limit ≤ 100 →
  GET_comics None q genre (Some limit)
  = (Ok (take (Z.to_nat limit) _demo_comics), None).
Proof.
  intros [H1 H100].
  unfold GET_comics, list_comics, py_slice_to. simpl.
  rewrite (proj2 (Z.leb_le 1 limit)), (proj2 (Z.leb_le limit 100)) by done.
  rewrite (proj2 (Z.leb_le 0 limit)) by lia. simpl.
  by rewrite demo_prefix_dump.
Qed.

(** C4.  With [db] the unavailable sentinel, [GET /api/comics] answers with
    exactly the first [limit] demo records, in the order of the demo list,
    whatever [q] and [genre] are; nothing is raised and there is still no
    store afterwards.  An omitted [limit] is 24. *)
Theorem list_comics_demo_fallback (q genre : option string) (limit : Z) :
  1 ≤ limit ≤ 100 →
  GET_comics None q genre (Some limit)
  = (Ok (take (Z.to_nat limit) _demo_comics), None)
  ∧ GET_comics None q genre None = (Ok _demo_comics, None)
  ∧ http_status (GET_comics None q genre (Some limit)).1 = 200.
Proof.
  intros Hl. rewrite (demo_fallback_eq q genre limit Hl). repeat split.
Qed.

(** C9.  The demo data set has exactly four records, so without a store
    [GET /api/comics?limit=L] answers with exactly [min L 4] records for
    every [L] from 1 to 100, which is fewer than [L] as soon as [L]
    exceeds 4. *)
Theorem demo_limit_length (q genre : option string) (limit : Z) :
  1 ≤ limit ≤ 100 →
  length _demo_comics = 4%nat
  ∧ ∃ docs,
      GET_comics None q genre (Some limit) = (Ok docs, None)
      ∧ Z.of_nat (length docs) = Z.min limit 4
      ∧ (4 < limit → Z.of_nat (length docs) < limit).
Proof.
  intros Hl. split; [reflexivity|].
  exists (take (Z.to_nat limit) _demo_comics).
  split; [by apply demo_fallback_eq|].
  rewrite length_take, demo_length. lia.
Qed.

(** ** list_comics with a store *)

Lemma seed_if_empty_absorbs (s : store) :
  ∃ s1, seed_if_empty s = (Ok tt, s1).
Proof.
  unfold seed_if_empty, try_except.
  match goal with |- context [match ?b s with _ => _ end] =>
    destruct (b s) as [[[]|e] s'] end; by eexists.
Qed.

Lemma get_documents_cases name filt limit (s : store) :
  (∃ s', get_documents name filt limit s
         = (Ok (take (Z.to_nat limit)
                     (filter (λ d, matches filt d = true) (collection s name))),
            s')
         ∧ hd false (faults s) = false)
  ∨ (∃ s', get_documents name filt limit s = (Raise StoreError, s')
           ∧ hd false (faults s) = true).
Proof.
  unfold get_documents, mbind, M_bind, query.
  pose proof (round_trip_collection s name) as Hc.
  destruct (round_trip_cases s) as [(E & Hf & _)|(E & Hf)];
    rewrite E in *; simpl in *.
  - left. eexists. split; [|done]. by rewrite Hc.
  - right. by eexists.
Qed.

(** C3.  [limit] is validated before the handler runs: a value outside
    [1, 100] is refused with a request validation error (status 422), the
    store untouched, and is not clamped; an omitted [limit] is 24.  For
    [limit] within [1, 100] a returned sequence has at most [limit]
    elements; without a store the request always returns, and with a store
    the only failures are a failing store read and a stored document that
    is not a comic. *)
Theorem list_comics_limit (db : option store) (q genre : option string)
                          (limit : Z) :
  (1 ≤ limit ≤ 100 →
   match (GET_comics db q genre (Some limit)).1 with
   | Ok docs => Z.of_nat (length docs) ≤ limit
   | Raise e => is_Some db ∧ (e = StoreError ∨ e = ValidationError)
   end)
  ∧ (limit < 1 ∨ 100 < limit →
     GET_comics db q genre (Some limit) = (Raise RequestValidationError, db)
     ∧ http_status (GET_comics db q genre (Some limit)).1 = 422)
  ∧ GET_comics db q genre None = GET_comics db q genre (Some 24).
Proof.
  split; [|split; [|reflexivity]].
  - intros Hl. destruct db as [s|].
    + unfold GET_comics. simpl.
      rewrite (proj2 (Z.leb_le 1 limit)), (proj2 (Z.leb_le limit 100)) by lia.
      simpl. unfold run, list_comics_store, read_comics, mbind, M_bind, lift.
      destruct (seed_if_empty_absorbs s) as [s1 ->].
      destruct (get_documents_cases "comic" (build_filter q genre) limit s1)
        as [(s2 & -> & _)|(s2 & -> & _)]; simpl; [|eauto].
      match goal with |- context [dump_all ?f ?l] =>
        destruct (dump_all_cases f l) as [(rs & -> & Hlen)| ->] end;
        simpl; [|eauto].
      rewrite Hlen, length_take. lia.
    + rewrite (demo_fallback_eq q genre limit Hl).
      simpl. rewrite length_take. lia.
  - intros Hout. unfold GET_comics. simpl.
    assert ((1 <=? limit) && (limit <=? 100) = false) as ->; [|done].
    apply andb_false_iff. rewrite Z.leb_gt, Z.leb_gt. lia.
Qed.

(** ** Seeding *)

Lemma collection_insert cs n fs name (docs : list doc) :
  collection (mkStore (<[name := docs]> cs) n fs) name = docs.
Proof. unfold collection. simpl. by rewrite lookup_insert_eq. Qed.

(** One [create_document] call: a failed round trip writes nothing, a
    successful one appends the data under a fresh [_id]. *)
Lemma create_document_step name (data : ComicLike) (s : store) :
  create_document name data s
  = if hd false (faults s)
    then (Raise StoreError,
          mkStore (collections s) (next_oid s) (tail (faults s)))
    else (Ok (oid_hex (fresh_oid (next_oid s))),
          mkStore (<[name := (collection s name
                              ++ [<["_id" := VObjectId (fresh_oid (next_oid s))]>
                                    (fields_of data)])%list]> (collections s))
                  (next_oid s + 1)%N (tail (faults s))).
Proof.
  unfold create_document, mbind, M_bind, update, round_trip.
  destruct s as [cs n [|[] fs]]; reflexivity.
Qed.

Lemma seeded_from_length n cs : length (seeded_from n cs) = length cs.
Proof. revert n. induction cs as [|c cs IH]; intros n; simpl; [done|]. by rewrite IH. Qed.

Lemma seeded_from_elem n cs d :
  d ∈ seeded_from n cs → ∃ c oid, c ∈ cs ∧ d = <["_id" := VObjectId oid]> c.
Proof.
  revert n. induction cs as [|c cs IH]; intros n; simpl; intros Hd.
  - by apply elem_of_nil in Hd.
  - apply elem_of_cons in Hd as [->|Hd].
    + exists c, (fresh_oid n). split; [left | done].
    + destruct (IH _ Hd) as (c' & oid & ? & ?).
      exists c', oid. split; [by right | done].
Qed.

(** The seeding loop appends a prefix of the seeded records, all of them
    when none of its round trips fails. *)
Lemma seed_loop (cs : list doc) (s : store) :
  ∃ k r s',
    for_each cs (λ c, _ ← create_document "comic" (FromDict c); mret tt) s
    = (r, s')
    ∧ collection s' "comic"
      = (collection s "comic" ++ take k (seeded_from (next_oid s) cs))%list
    ∧ (forallb negb (take (length cs) (faults s)) = true →
       r = Ok tt ∧ k = length cs).
Proof.
  revert s. induction cs as [|c cs IH]; intros s; simpl.
  - exists 0%nat, (Ok tt), s. by rewrite app_nil_r.
  - unfold mbind at 1. unfold M_bind at 1.
    unfold mbind at 1. unfold M_bind at 1.
    rewrite create_document_step.
    destruct (faults s) as [|[] fs] eqn:Hf; simpl.
    + match goal with |- context [for_each cs ?b ?s1] =>
        destruct (IH s1) as (k & r & s' & -> & Hc & Hk) end.
      rewrite collection_insert in Hc. simpl in Hc.
      exists (S k), r, s'. split; [done|]. split.
      * rewrite Hc. by rewrite <- app_assoc.
      * intros _. simpl in Hk.
        destruct Hk as [-> ->]; [by destruct (length cs)|done].
    + exists 0%nat, (Raise StoreError), (mkStore (collections s) (next_oid s) fs).
      split; [done|]. split; [by rewrite app_nil_r | done].
    + match goal with |- context [for_each cs ?b ?s1] =>
        destruct (IH s1) as (k & r & s' & -> & Hc & Hk) end.
      rewrite collection_insert in Hc. simpl in Hc.
      exists (S k), r, s'. split; [done|]. split.
      * rewrite Hc. by rewrite <- app_assoc.
      * intros Hall. destruct (Hk Hall) as [-> ->]. done.
Qed.

Lemma matches_empty (d : doc) : matches ∅ d = true.
Proof. unfold matches. by rewrite map_to_list_empty. Qed.

(** Seeding an empty collection: the error of any step is absorbed, the
    collection ends up holding a prefix of the seeded records, and all of
    them when none of the five round trips (one count, four inserts)
    fails. *)
Lemma seed_if_empty_on_empty (s : store) :
  collection s "comic" = [] →
  ∃ k s1,
    seed_if_empty s = (Ok tt, s1)
    ∧ collection s1 "comic" = take k (seeded_from (next_oid s) _demo_comics)
    ∧ (forallb negb (take 5 (faults s)) = true →
       collection s1 "comic" = seeded_from (next_oid s) _demo_comics).
Proof.
  intros Hempty.
  unfold seed_if_empty, try_except, count_documents.
  set (loop := for_each _demo_comics _).
  unfold mbind at 1. unfold M_bind at 1.
  unfold mbind at 1. unfold M_bind at 1.
  pose proof (round_trip_collection s "comic") as Hc.
  destruct (round_trip_cases s) as [(E & Hf & _)|(E & Hf)]; rewrite E in *;
    simpl in Hc.
  - unfold query. simpl. rewrite Hc, Hempty. simpl.
    match goal with |- context [loop ?s1] =>
      destruct (seed_loop _demo_comics s1) as (k & r & s' & El & Hcl & Hk) end.
    fold loop in El.
    simpl in Hcl, Hk. rewrite Hc, Hempty in Hcl. simpl in Hcl.
    exists k, s'.
    assert (Hall : forallb negb (take 5 (faults s)) = true →
                   r = Ok tt ∧ k = 4%nat).
    { intros H5. apply Hk. destruct (faults s) as [|[] fs]; simpl in *; done. }
    rewrite El. split; [by destruct r as [[]|]|]. split; [done|].
    intros H5. destruct (Hall H5) as [_ ->]. by rewrite Hcl.
  - exists 0%nat. eexists. split; [reflexivity|]. simpl.
    rewrite Hc, Hempty. split; [done|].
    intros H5. destruct (faults s) as [|[] fs]; simpl in *; done.
Qed.

(** Every seeded record passes through [serialize_document] and
    [ComicResponse] without error. *)
Lemma demo_with_id_ok (c : doc) (oid : ObjectId) :
  c ∈ _demo_comics →
  ∃ r, ComicResponse_new (serialize_document (<["_id" := VObjectId oid]> c))
       = Ok r.
Proof.
  unfold _demo_comics. intros Hc.
  repeat (apply elem_of_cons in Hc as [->|Hc]);
    [| | | | by apply elem_of_nil in Hc];
    eexists; vm_compute; reflexivity.
Qed.

(** The read phase succeeds when its round trip does and every stored
    document is a comic. *)
Lemma read_comics_ok q genre limit (s : store) :
  hd false (faults s) = false →
  Forall (λ d, ∃ c, ComicResponse_new (serialize_document d) = Ok c)
         (collection s "comic") →
  ∃ rs s',
    read_comics q genre limit s = (Ok rs, s')
    ∧ dump_all serialize_document
        (take (Z.to_nat limit)
              (filter (λ d, matches (build_filter q genre) d = true)
                      (collection s "comic"))) = Ok rs.
Proof.
  intros Hf Hall. unfold read_comics, mbind, M_bind, lift.
  destruct (get_documents_cases "comic" (build_filter q genre) limit s)
    as [(s' & -> & _)|(s' & _ & Hf')]; [|congruence].
  match goal with |- context [dump_all ?f ?l] =>
    destruct (dump_all_ok f l) as [rs Hrs] end.
  { apply Forall_take, Forall_forall. intros d [_ Hd]%list_elem_of_filter.
    revert d Hd. by apply Forall_forall. }
  rewrite Hrs. by exists rs, s'.
Qed.

(** Reading writes nothing. *)
Lemma read_comics_collection q genre limit (s : store) name :
  collection (read_comics q genre limit s).2 name = collection s name.
Proof.
  unfold read_comics, get_documents, mbind, M_bind, lift, query.
  pose proof (round_trip_collection s name) as Hc.
  destruct (round_trip s) as [[[]|e] s']; simpl in *; done.
Qed.

(** C5.  With the store available and the [comic] collection empty, one
    [list_comics] call first runs the seeding block and then the read, on
    the state seeding left.  The seeding block never raises: a failure of
    the count or of any insert is absorbed, leaving a prefix of the seeded
    demo records in the collection, and when none of its five round trips
    fails the collection holds all demo records, each under a store
    identifier, before the read executes.  A seeding failure does not fail
    the request: if the read's own round trip succeeds, the request
    returns, and what it returns is the serialised first [limit] matches of
    the collection as seeding left it. *)
Theorem list_comics_seeds_empty_collection (s : store)
    (q genre : option string) (limit : Z) :
  collection s "comic" = [] →
  ∃ k s1,
    seed_if_empty s = (Ok tt, s1)
    ∧ list_comics (Some s) q genre limit = run (read_comics q genre limit) s1
    ∧ collection s1 "comic" = take k (seeded_from (next_oid s) _demo_comics)
    ∧ (forallb negb (take 5 (faults s)) = true →
       collection s1 "comic" = seeded_from (next_oid s) _demo_comics
       ∧ length (collection s1 "comic") = length _demo_comics)
    ∧ (hd false (faults s1) = false →
       ∃ rs s2,
         list_comics (Some s) q genre limit = (Ok rs, Some s2)
         ∧ collection s2 "comic" = collection s1 "comic"
         ∧ dump_all serialize_document
             (take (Z.to_nat limit)
                   (filter (λ d, matches (build_filter q genre) d = true)
                           (collection s1 "comic"))) = Ok rs).
Proof.
  intros Hempty.
  destruct (seed_if_empty_on_empty s Hempty) as (k & s1 & Hseed & Hk & Hfull).
  exists k, s1. split; [done|].
  assert (Hrun : list_comics (Some s) q genre limit
                 = run (read_comics q genre limit) s1).
  { unfold list_comics, run, list_comics_store.
    unfold mbind at 1. unfold M_bind at 1. by rewrite Hseed. }
  split; [done|]. split; [done|]. split.
  - intros H5. rewrite (Hfull H5). split; [done|]. apply seeded_from_length.
  - intros Hf.
    destruct (read_comics_ok q genre limit s1 Hf) as (rs & s2 & Hread & Hrs).
    { rewrite Hk. apply Forall_take, Forall_forall. intros d Hd.
      apply seeded_from_elem in Hd as (c & oid & Hc & ->).
      by apply demo_with_id_ok. }
    exists rs, s2. rewrite Hrun. unfold run. rewrite Hread.
    split; [done|]. split; [|done].
    pose proof (read_comics_collection q genre limit s1 "comic") as Hc.
    by rewrite Hread in Hc.
Qed.

(** ** create_comic *)

Lemma ComicCreate_new_missing (body : doc) (k : string) :
  k ∈ ["title"; "author"; "genre"] → body !! k = None →
  ∃ e, ComicCreate_new body = Raise e.
Proof.
  intros Hk Hnone. unfold ComicCreate_new.
  destruct (required_str body "title") as [t|e] eqn:Et; [|by exists e].
  destruct (required_str body "author") as [a|e] eqn:Ea; [|by exists e].
  destruct (required_str body "genre") as [g|e] eqn:Eg; [|by exists e].
  apply required_str_Ok in Et, Ea, Eg.
  repeat (apply elem_of_cons in Hk as [->|Hk]); try congruence.
  by apply elem_of_nil in Hk.
Qed.

(** C6.  A [POST /api/comics] body that lacks [title], [author] or [genre]
    is refused with a request validation error (status 422, a client
    error) before the handler runs: [create_document] is not reached and
    the store is exactly as it was, whether or not it is available. *)
Theorem create_comic_rejects_incomplete_body (db : option store) (body : doc)
    (k : string) :
  k ∈ ["title"; "author"; "genre"] →
  body !! k = None →
  POST_comics db body = (Raise RequestValidationError, db)
  ∧ (POST_comics db body).2 = db
  ∧ http_status (POST_comics db body).1 = 422.
Proof.
  intros Hk Hnone.
  destruct (ComicCreate_new_missing body k Hk Hnone) as [e He].
  unfold POST_comics. rewrite He. done.
Qed.

(** C7.  While [db] is the unavailable sentinel, [create_comic] fails with
    503 for every payload and writes nowhere: there is no demo fallback for
    writes, and the same holds of the endpoint for every body that passes
    validation.  With the store available and the insert's round trip
    succeeding, the answer is exactly the dictionary with the one key [id],
    holding the identifier the store assigned to the document it appended
    to the [comic] collection. *)
Theorem create_comic_unavailable_or_id (payload : ComicCreate) :
  create_comic None payload
  = (Raise (HTTPException 503 "Database not available"), None)
  ∧ http_status (create_comic None payload).1 = 503
  ∧ (∀ body, ComicCreate_new body = Ok payload →
       POST_comics None body
       = (Raise (HTTPException 503 "Database not available"), None))
  ∧ (∀ s, hd false (faults s) = false →
       ∃ s',
         create_comic (Some s) payload
         = (Ok (dict [("id", VStr (oid_hex (fresh_oid (next_oid s))))]),
            Some s')
         ∧ collection s' "comic"
           = (collection s "comic"
              ++ [<["_id" := VObjectId (fresh_oid (next_oid s))]>
                    (ComicCreate_dump payload)])%list
         ∧ (∀ body, ComicCreate_new body = Ok payload →
              POST_comics (Some s) body = create_comic (Some s) payload)).
Proof.
  split; [done|]. split; [done|]. split.
  - intros body Hb. unfold POST_comics. by rewrite Hb.
  - intros s Hf. unfold create_comic, run.
    unfold mbind at 1. unfold M_bind at 1.
    rewrite create_document_step, Hf. simpl.
    eexists. split; [reflexivity|]. split.
    + by rewrite collection_insert.
    + intros body Hb. unfold POST_comics. by rewrite Hb.
Qed.

(** ** The title filter *)

Lemma truthy_Some (q : string) : q ≠ "" → truthy (Some q) = Some q.
Proof.
  intros Hq. unfold truthy. destruct (String.eqb_spec q ""); congruence.
Qed.

Lemma build_filter_title (q : string) (genre : option string) :
  q ≠ "" → build_filter (Some q) genre !! "title" = Some (CRegex q "i").
Proof.
  intros Hq. unfold build_filter. rewrite (truthy_Some q Hq).
  destruct (truthy genre).
  - rewrite lookup_insert_ne by done. by rewrite lookup_insert_eq.
  - by rewrite lookup_insert_eq.
Qed.

Lemma build_filter_genre (q genre : option string) :
  build_filter q genre !! "genre" = (λ g, CEq (VStr g)) <$> truthy genre.
Proof.
  unfold build_filter. destruct (truthy genre); simpl.
  - by rewrite lookup_insert_eq.
  - destruct (truthy q); [by rewrite lookup_insert_ne|done].
Qed.

(** A matching document satisfies each condition of the filter. *)
Lemma matches_lookup (filt : filter_dict) (d : doc) (k : string) (c : cond) :
  matches filt d = true → filt !! k = Some c →
  ∃ v, d !! k = Some v ∧ cond_holds c v = true.
Proof.
  unfold matches. intros Hm Hk.
  rewrite forallb_forall in Hm.
  apply elem_of_map_to_list, list_elem_of_In in Hk.
  specialize (Hm _ Hk). simpl in Hm.
  destruct (d !! k) as [v|]; [by exists v | done].
Qed.

(** What the read returns comes from documents of the collection that
    match the filter built from [q] and [genre]. *)
Lemma read_comics_elem q genre limit (s s' : store) (rs : list doc) (r : doc) :
  read_comics q genre limit s = (Ok rs, s') → r ∈ rs →
  ∃ d c, d ∈ collection s "comic"
         ∧ matches (build_filter q genre) d = true
         ∧ ComicResponse_new (serialize_document d) = Ok c
         ∧ r = model_dump c.
Proof.
  unfold read_comics, mbind, M_bind, lift. intros Hread Hr.
  destruct (get_documents_cases "comic" (build_filter q genre) limit s)
    as [(s1 & E & _)|(s1 & E & _)]; rewrite E in Hread; [|discriminate].
  injection Hread as Hrs _.
  destruct (dump_all_elem _ _ _ _ Hrs Hr) as (d & c & Hd & Hc & ->).
  apply elem_of_take in Hd as (i & Hd & _).
  apply list_elem_of_lookup_2, list_elem_of_filter in Hd as [Hm Hd].
  by exists d, c.
Qed.

(** C8.  With the store available and a non-empty [q], the handler builds
    the filter that puts the condition [$regex q] with option [i] on
    [title] (and equality with [genre] on [genre] when one is given) and
    passes it to [get_documents], so every returned record is the
    serialisation of a stored document whose title the store's
    regular-expression search accepts for [q], case-insensitively.  For a
    [q] without regular-expression operators, such as Arcane, where that
    search is a case-insensitive substring search, every returned record's
    title contains [q] case-insensitively. *)
Theorem list_comics_title_filter (s : store) (q : string)
    (genre : option string) (limit : Z) (rs : list doc) (db' : option store) :
  (∀ p subject, plain_pattern p = true →
                regex_search p "i" subject = ci_contains p subject) →
  q ≠ "" →
  plain_pattern q = true →
  list_comics (Some s) (Some q) genre limit = (Ok rs, db') →
  build_filter (Some q) genre !! "title" = Some (CRegex q "i")
  ∧ build_filter (Some q) genre !! "genre"
    = (λ g, CEq (VStr g)) <$> truthy genre
  ∧ list_comics (Some s) (Some q) genre limit
    = run (_ ← seed_if_empty;
           docs ← get_documents "comic" (build_filter (Some q) genre) limit;
           lift (dump_all serialize_document docs)) s
  ∧ Forall (λ r, ∃ t, r !! "title" = Some (VStr t)
                      ∧ ci_contains q t = true) rs.
Proof.
  intros Hregex Hq Hplain Hlist.
  split; [by apply build_filter_title|].
  split; [apply build_filter_genre|].
  split; [reflexivity|].
  apply Forall_forall. intros r Hr.
  revert Hlist. unfold list_comics, run, list_comics_store.
  unfold mbind at 1. unfold M_bind at 1.
  destruct (seed_if_empty_absorbs s) as [s1 ->].
  destruct (read_comics (Some q) genre limit s1) as [res s2] eqn:Hread.
  intros [= -> _].
  destruct (read_comics_elem _ _ _ _ _ _ _ Hread Hr)
    as (d & c & _ & Hm & Hc & ->).
  destruct (matches_lookup _ _ _ _ Hm (build_filter_title q genre Hq))
    as (v & Hv & Hcond).
  simpl in Hcond. destruct v as [|t| | | | |]; try discriminate.
  apply ComicResponse_new_Ok in Hc as (_ & Ht & _).
  rewrite serialize_document_lookup in Ht. simpl in Ht.
  rewrite Hv in Ht. injection Ht as Ht.
  exists t. rewrite model_dump_lookup. simpl. rewrite <- Ht.
  split; [done|]. by rewrite <- Hregex.
Qed.

(** * Further properties of the service *)

(** ** serialize_document, continued *)

Lemma call_isoformat_idem (v : value) :
  call_isoformat (call_isoformat v) = call_isoformat v.
Proof. by destruct v. Qed.

(** X1.  Serialising is idempotent: a document that has been through
    [serialize_document] is left as it is by a second pass. *)
Theorem serialize_document_idempotent (d : doc) :
  serialize_document (serialize_document d) = serialize_document d.
Proof.
  apply map_eq. intros k.
  rewrite (serialize_document_lookup (serialize_document d) k).
  rewrite !(serialize_document_lookup d).
  repeat case_decide; subst; simpl; try done;
    destruct (d !! _) as [v|]; simpl; by rewrite ?call_isoformat_idem.
Qed.

(** X2.  [serialize_document] touches four keys only: every other key
    keeps its value, the key set loses [_id] and gains [id] when [_id] was
    there and is unchanged otherwise, and an [id] the document already had
    is overwritten exactly when [_id] is present. *)
Theorem serialize_document_frame (d : doc) :
  (∀ k, k = "_id" ∨ k = "id" ∨ k = "created_at" ∨ k = "updated_at"
        ∨ serialize_document d !! k = d !! k)
  ∧ dom (serialize_document d)
    = match d !! "_id" with
      | Some _ => {["id"]} ∪ dom d ∖ {["_id"]}
      | None => dom d
      end
  ∧ match d !! "_id" with
    | Some v => serialize_document d !! "id" = Some (VStr (py_str v))
    | None => serialize_document d !! "id" = d !! "id"
    end.
Proof.
  split; [|split].
  - intros k. rewrite serialize_document_lookup.
    repeat case_decide; auto.
  - apply set_eq. intros k.
    rewrite elem_of_dom, serialize_document_lookup.
    destruct (d !! "_id") as [v|] eqn:E.
    + rewrite elem_of_union, elem_of_difference, !elem_of_singleton,
              elem_of_dom.
      repeat case_decide; subst; rewrite ?fmap_is_Some;
        try (split; [by intros [? [=]] | by intros [[=]|[_ []]]]);
        split; eauto; intros [?|[? ?]]; done.
    + rewrite elem_of_dom.
      repeat case_decide; subst; rewrite ?fmap_is_Some, ?E; done.
  - rewrite serialize_document_lookup. simpl. by destruct (d !! "_id").
Qed.

(** ** get_comic without a store *)

Lemma demo_search_none (l : list doc) (comic_id : string) :
  Forall (λ c, c !! "id" ≠ Some (VStr comic_id)) l →
  demo_search l comic_id = Raise (HTTPException 404 "Comic not found").
Proof.
  induction 1 as [|c l Hc _ IH]; simpl; [done|].
  by rewrite bool_decide_eq_false_2.
Qed.

Lemma demo_get (c : doc) :
  c ∈ _demo_comics →
  ∃ i, c !! "id" = Some (VStr i) ∧ GET_comic None i = (Ok c, None).
Proof.
  unfold _demo_comics. intros Hc.
  repeat (apply elem_of_cons in Hc as [->|Hc]);
    [| | | | by apply elem_of_nil in Hc];
    eexists; split; vm_compute; reflexivity.
Qed.

(** X3.  Without a store, [get_comic] answers an identifier in one of two
    ways: it is the [id] of a demo record, and the answer is that record;
    or no demo record has it, and the answer is 404 "Comic not found". *)
Theorem get_comic_demo_lookup (comic_id : string) :
  (∃ c, c ∈ _demo_comics ∧ c !! "id" = Some (VStr comic_id)
        ∧ GET_comic None comic_id = (Ok c, None))
  ∨ (Forall (λ c, c !! "id" ≠ Some (VStr comic_id)) _demo_comics
     ∧ get_comic None comic_id
       = (Raise (HTTPException 404 "Comic not found"), None)
     ∧ http_status (GET_comic None comic_id).1 = 404).
Proof.
  destruct (decide (Exists (λ c, c !! "id" = Some (VStr comic_id)) _demo_comics))
    as [Hex|Hno].
  - left. apply Exists_exists in Hex as (c & Hc & Hid).
    exists c. split; [done|]. split; [done|].
    destruct (demo_get c Hc) as (i & Hi & Hget). congruence.
  - right. apply not_Exists_Forall in Hno; [|intros c; apply _].
    assert (Hget : get_comic None comic_id
                   = (Raise (HTTPException 404 "Comic not found"), None)).
    { unfold get_comic. by rewrite (demo_search_none _ _ Hno). }
    split; [done|]. split; [done|].
    unfold GET_comic. by rewrite Hget.
Qed.

(** X4.  Without a store, every record the list endpoint returns can be
    fetched by its [id] from the single-comic endpoint, which answers with
    the very same record. *)
Theorem listed_demo_is_gettable (q genre : option string) (limit : Z)
    (rs : list doc) (r : doc) :
  1 ≤ limit ≤ 100 →
  (GET_comics None q genre (Some limit)).1 = Ok rs →
  r ∈ rs →
  ∃ i, r !! "id" = Some (VStr i) ∧ GET_comic None i = (Ok r, None).
Proof.
  intros Hl Hrs Hr. rewrite (demo_fallback_eq q genre limit Hl) in Hrs.
  injection Hrs as <-. apply demo_get.
  apply elem_of_take in Hr as (i & Hr & _).
  by eapply list_elem_of_lookup_2.
Qed.

(** ** list_comics on a store, continued *)

Lemma round_trip_same (s : store) : same_data s (round_trip s).2.
Proof. unfold round_trip. by destruct (faults s) as [|[] fs]. Qed.

Lemma read_comics_same q genre limit (s : store) :
  same_data s (read_comics q genre limit s).2.
Proof.
  unfold read_comics, get_documents, mbind, M_bind, lift, query.
  pose proof (round_trip_same s) as Hs.
  destruct (round_trip s) as [[[]|e] s']; simpl in *; done.
Qed.

Lemma filter_matches_empty (l : list doc) :
  filter (λ d, matches ∅ d = true) l = l.
Proof.
  induction l as [|d l IH]; [done|].
  rewrite filter_cons_True by apply matches_empty. by rewrite IH.
Qed.

(** A collection that holds a document is not seeded. *)
Lemma seed_if_empty_nonempty (s : store) :
  collection s "comic" ≠ [] →
  ∃ s1, seed_if_empty s = (Ok tt, s1) ∧ same_data s s1.
Proof.
  intros Hne. unfold seed_if_empty, try_except, count_documents.
  set (loop := for_each _demo_comics _).
  unfold mbind at 1. unfold M_bind at 1.
  unfold mbind at 1. unfold M_bind at 1.
  pose proof (round_trip_same s) as Hs.
  pose proof (round_trip_collection s "comic") as Hc.
  destruct (round_trip s) as [[[]|e] s1] eqn:E; simpl in *.
  - unfold query. simpl. rewrite filter_matches_empty, Hc.
    destruct (collection s "comic") as [|d l] eqn:El; [done|].
    simpl. by exists s1.
  - by exists s1.
Qed.

(** X5.  Seeding happens on an empty collection only: when the [comic]
    collection holds at least one document, a [list_comics] call writes
    nothing, whatever the filters, the limit and the store's failures; the
    collections and the next identifier are as before. *)
Theorem list_comics_nonempty_no_write (s : store) (q genre : option string)
    (limit : Z) :
  collection s "comic" ≠ [] →
  ∃ s', (list_comics (Some s) q genre limit).2 = Some s' ∧ same_data s s'.
Proof.
  intros Hne.
  destruct (seed_if_empty_nonempty s Hne) as (s1 & Hseed & [Hc1 Hn1]).
  unfold list_comics, run, list_comics_store.
  unfold mbind at 1. unfold M_bind at 1. rewrite Hseed.
  pose proof (read_comics_same q genre limit s1) as [Hc2 Hn2].
  destruct (read_comics q genre limit s1) as [r s2]. simpl in *.
  exists s2. split; [done|]. split; congruence.
Qed.

(** X6.  Seeding is not repeated: after one request has seeded an empty
    collection (none of its five round trips failing), a second request,
    with any parameters, leaves the collection with the same four seeded
    records. *)
Theorem list_comics_seeds_once (s : store) (q genre q' genre' : option string)
    (limit limit' : Z) :
  collection s "comic" = [] →
  forallb negb (take 5 (faults s)) = true →
  ∃ s1 s2,
    (list_comics (Some s) q genre limit).2 = Some s1
    ∧ (list_comics (Some s1) q' genre' limit').2 = Some s2
    ∧ collection s1 "comic" = seeded_from (next_oid s) _demo_comics
    ∧ collection s2 "comic" = seeded_from (next_oid s) _demo_comics
    ∧ length (collection s2 "comic") = 4%nat.
Proof.
  intros Hempty H5.
  destruct (seed_if_empty_on_empty s Hempty) as (k & s0 & Hseed & _ & Hfull).
  specialize (Hfull H5).
  assert (H1 : ∃ s1, (list_comics (Some s) q genre limit).2 = Some s1
                     ∧ collection s1 "comic"
                       = seeded_from (next_oid s) _demo_comics).
  { unfold list_comics, run, list_comics_store.
    unfold mbind at 1. unfold M_bind at 1. rewrite Hseed.
    pose proof (read_comics_collection q genre limit s0 "comic") as Hc.
    destruct (read_comics q genre limit s0) as [r s1]. simpl in *.
    exists s1. split; [done|]. congruence. }
  destruct H1 as (s1 & Hs1 & Hc1).
  assert (Hne : collection s1 "comic" ≠ []) by (by rewrite Hc1).
  destruct (seed_if_empty_nonempty s1 Hne) as (s1' & Hseed' & [Hcs _]).
  assert (H2 : ∃ s2, (list_comics (Some s1) q' genre' limit').2 = Some s2
                     ∧ collection s2 "comic" = collection s1 "comic").
  { unfold list_comics, run, list_comics_store.
    unfold mbind at 1. unfold M_bind at 1. rewrite Hseed'.
    pose proof (read_comics_collection q' genre' limit' s1' "comic") as Hc.
    destruct (read_comics q' genre' limit' s1') as [r s2]. simpl in *.
    exists s2. split; [done|]. rewrite Hc. unfold collection. by rewrite Hcs. }
  destruct H2 as (s2 & Hs2 & Hc2).
  exists s1, s2. rewrite Hc2, Hc1, seeded_from_length. done.
Qed.

(** X7.  The genre filter is an exact match: with a non-empty [genre],
    every record [list_comics] returns from the store has exactly that
    genre. *)
Theorem list_comics_genre_filter (s : store) (q : option string) (g : string)
    (limit : Z) (rs : list doc) (db' : option store) :
  g ≠ "" →
  list_comics (Some s) q (Some g) limit = (Ok rs, db') →
  Forall (λ r, r !! "genre" = Some (VStr g)) rs.
Proof.
  intros Hg Hlist. apply Forall_forall. intros r Hr.
  revert Hlist. unfold list_comics, run, list_comics_store.
  unfold mbind at 1. unfold M_bind at 1.
  destruct (seed_if_empty_absorbs s) as [s1 ->].
  destruct (read_comics q (Some g) limit s1) as [res s2] eqn:Hread.
  intros [= -> _].
  destruct (read_comics_elem _ _ _ _ _ _ _ Hread Hr)
    as (d & c & _ & Hm & Hc & ->).
  pose proof (build_filter_genre q (Some g)) as Hf.
  rewrite (truthy_Some g Hg) in Hf. simpl in Hf.
  destruct (matches_lookup _ _ _ _ Hm Hf) as (v & Hv & Hcond).
  simpl in Hcond. apply bool_decide_eq_true in Hcond as ->.
  apply ComicResponse_new_Ok in Hc as (_ & _ & _ & Hgen).
  rewrite serialize_document_lookup in Hgen. simpl in Hgen.
  rewrite Hv in Hgen. injection Hgen as Hgen.
  rewrite model_dump_lookup. simpl. by rewrite <- Hgen.
Qed.

Lemma build_filter_empty (q genre : option string) :
  (q = None ∨ q = Some "") → (genre = None ∨ genre = Some "") →
  build_filter q genre = ∅.
Proof. by intros [-> | ->] [-> | ->]. Qed.

(** X8.  An absent or empty [q] and an absent or empty [genre] filter
    nothing: on a store with a non-empty collection and no failure to
    come, [list_comics] answers with the serialisation of the first [limit]
    documents in the store's order, and the store is exactly as before. *)
Theorem list_comics_unfiltered (s : store) (q genre : option string)
    (limit : Z) :
  (q = None ∨ q = Some "") → (genre = None ∨ genre = Some "") →
  collection s "comic" ≠ [] →
  faults s = [] →
  list_comics (Some s) q genre limit
  = (dump_all serialize_document (take (Z.to_nat limit) (collection s "comic")),
     Some s).
Proof.
  intros Hq Hg Hne Hf.
  assert (Hrt : round_trip s = (Ok tt, s)).
  { unfold round_trip. by rewrite Hf. }
  unfold list_comics, run, list_comics_store, read_comics, get_documents,
    seed_if_empty, try_except, count_documents, query, lift.
  set (loop := for_each _demo_comics _).
  rewrite (build_filter_empty q genre Hq Hg).
  unfold mbind, M_bind. rewrite Hrt. simpl. rewrite !filter_matches_empty.
  destruct (collection s "comic") as [|d l] eqn:El; [done|].
  simpl. rewrite Hrt. simpl. by rewrite filter_matches_empty, El.
Qed.

Lemma dump_all_take (f : doc → doc) (l rs : list doc) (n : nat) :
  dump_all f l = Ok rs → dump_all f (take n l) = Ok (take n rs).
Proof.
  unfold dump_all. revert rs n. induction l as [|d l IH]; intros rs n H.
  - injection H as <-. by destruct n.
  - simpl in H. apply bind_Ok in H as (y & Hy & H).
    apply bind_Ok in H as (k & Hk & [= <-]).
    destruct n as [|n]; [done|]. simpl.
    rewrite Hy. simpl. rewrite (IH k n Hk). done.
Qed.

(** X9.  Raising the limit only appends: when the same request succeeds
    with limits [l1 ≤ l2], both within the allowed range, the answer for
    [l1] is the first [l1] records of the answer for [l2], with or without
    a store. *)
Theorem list_comics_limit_prefix (db : option store) (q genre : option string)
    (l1 l2 : Z) (rs1 rs2 : list doc) :
  1 ≤ l1 → l1 ≤ l2 → l2 ≤ 100 →
  (GET_comics db q genre (Some l1)).1 = Ok rs1 →
  (GET_comics db q genre (Some l2)).1 = Ok rs2 →
  rs1 = take (Z.to_nat l1) rs2.
Proof.
  intros H1 H12 H2. destruct db as [s|].
  - unfold GET_comics. simpl.
    rewrite (proj2 (Z.leb_le 1 l1)), (proj2 (Z.leb_le l1 100)) by lia.
    rewrite (proj2 (Z.leb_le 1 l2)), (proj2 (Z.leb_le l2 100)) by lia.
    simpl. unfold run, list_comics_store, read_comics.
    unfold mbind at 1 3. unfold M_bind at 1 3.
    destruct (seed_if_empty_absorbs s) as [s1 ->].
    unfold mbind, M_bind, lift.
    destruct (get_documents_cases "comic" (build_filter q genre) l1 s1)
      as [(sa & -> & _)|(sa & -> & _)]; [|discriminate].
    destruct (get_documents_cases "comic" (build_filter q genre) l2 s1)
      as [(sb & -> & _)|(sb & -> & _)]; [|discriminate].
    simpl. intros Hrs1 Hrs2.
    apply (dump_all_take _ _ _ (Z.to_nat l1)) in Hrs2.
    rewrite take_take in Hrs2.
    replace (Z.to_nat l1 `min` Z.to_nat l2)%nat with (Z.to_nat l1) in Hrs2
      by lia.
    congruence.
  - rewrite !demo_fallback_eq by lia. simpl. intros [= <-] [= <-].
    rewrite take_take. f_equal. lia.
Qed.

(** ** create_comic and get_comic on a store *)

Lemma hex_digit_ok (m : N) :
  (m < 16)%N →
  is_hex_digit (hex_digit m) = true ∧ lower_ascii (hex_digit m) = hex_digit m.
Proof.
  intros Hm.
  assert (Hcases : In m (map N.of_nat (seq 0 16))).
  { apply in_map_iff. exists (N.to_nat m). split; [lia|].
    apply in_seq. lia. }
  simpl in Hcases.
  repeat (destruct Hcases as [<-|Hcases]; [by vm_compute|]).
  destruct Hcases.
Qed.

Lemma hex_digits_length (w : nat) (n : N) : length (hex_digits w n) = w.
Proof.
  revert n. induction w as [|w IH]; intros n; simpl; [done|].
  rewrite length_app, IH. simpl. lia.
Qed.

Lemma hex_digits_ok (w : nat) (n : N) :
  forallb is_hex_digit (hex_digits w n) = true
  ∧ map lower_ascii (hex_digits w n) = hex_digits w n.
Proof.
  revert n. induction w as [|w IH]; intros n; simpl; [done|].
  destruct (IH (n / 16)%N) as [Hhex Hlow].
  destruct (hex_digit_ok (n mod 16)%N) as [Hd Hl];
    [apply N.mod_lt; done|].
  split.
  - rewrite forallb_app, Hhex. simpl. by rewrite Hd.
  - rewrite map_app, Hlow. simpl. by rewrite Hl.
Qed.

Lemma string_of_list_ascii_length (l : list ascii) :
  String.length (string_of_list_ascii l) = length l.
Proof. induction l as [|c l IH]; simpl; [done|]. by rewrite IH. Qed.

(** The identifier the store hands out is read back by [ObjectId] as the
    same identifier. *)
Lemma fresh_oid_parses (n : N) :
  ObjectId_of_str (oid_hex (fresh_oid n)) = Ok (fresh_oid n).
Proof.
  unfold ObjectId_of_str, fresh_oid, lower, chars. cbn [oid_hex].
  rewrite string_of_list_ascii_length, hex_digits_length.
  rewrite list_ascii_of_string_of_list_ascii.
  destruct (hex_digits_ok 24 n) as [-> ->]. done.
Qed.

Lemma matches_id (oid : ObjectId) (d : doc) :
  matches {["_id" := CEq (VObjectId oid)]} d
  = bool_decide (d !! "_id" = Some (VObjectId oid)).
Proof.
  unfold matches. rewrite map_to_list_singleton. simpl.
  destruct (d !! "_id") as [v|] eqn:E; simpl.
  - rewrite andb_true_r. apply bool_decide_ext. naive_solver.
  - done.
Qed.

(** A stored write payload reads back as a [ComicResponse] with the
    payload's fields. *)
Lemma stored_payload_response (oid : ObjectId) (p : ComicCreate) :
  ComicResponse_new
    (serialize_document (<["_id" := VObjectId oid]> (ComicCreate_dump p)))
  = Ok (mkComicResponse (oid_hex oid) (new_title p) (new_author p)
          (new_genre p) (new_description p) (new_cover_url p)
          (new_rating p) (new_tags p)).
Proof.
  destruct p as [t a g [d|] [c|] [r|] [ts|]]; vm_compute; reflexivity.
Qed.

(** [get_comic] when the identifier parses and the store finds a
    document that is a comic. *)
Lemma get_comic_found (s : store) (comic_id : string) (oid : ObjectId)
    (d : doc) (s' : store) (c : ComicResponse) :
  ObjectId_of_str comic_id = Ok oid →
  find_one "comic" {["_id" := CEq (VObjectId oid)]} s = (Ok (Some d), s') →
  d ≠ ∅ →
  ComicResponse_new (serialize_document d) = Ok c →
  get_comic (Some s) comic_id = (Ok c, Some s').
Proof.
  intros Hoid Hfind Hd Hc.
  unfold get_comic, run, try_except, mbind, M_bind, lift.
  rewrite Hoid, Hfind. rewrite bool_decide_eq_false_2 by done.
  by rewrite Hc.
Qed.

(** X10.  Round trip.  On a store whose next two round trips succeed and
    in which no document yet carries the identifier about to be assigned,
    a comic written with [create_comic] is returned by
    [GET /api/comics/{id}] for the identifier [create_comic] answered
    with: the record has that [id] and every submitted field as it was
    submitted, and reading writes nothing. *)
Theorem create_then_get (s : store) (payload : ComicCreate) :
  hd false (faults s) = false →
  hd false (tail (faults s)) = false →
  Forall (λ d, d !! "_id" ≠ Some (VObjectId (fresh_oid (next_oid s))))
         (collection s "comic") →
  ∃ new_id s1 s2,
    create_comic (Some s) payload
    = (Ok (dict [("id", VStr new_id)]), Some s1)
    ∧ GET_comic (Some s1) new_id
      = (Ok (<["id" := VStr new_id]> (ComicCreate_dump payload)), Some s2)
    ∧ same_data s1 s2.
Proof.
  intros Hf1 Hf2 Hfresh.
  set (oid := fresh_oid (next_oid s)).
  set (d := <["_id" := VObjectId oid]> (ComicCreate_dump payload)).
  set (s1 := mkStore (<["comic" := (collection s "comic" ++ [d])%list]>
                        (collections s))
                     (next_oid s + 1)%N (tail (faults s))).
  exists (oid_hex oid), s1,
         (mkStore (collections s1) (next_oid s1) (tail (faults s1))).
  split; [|split; [|done]].
  - unfold create_comic, run. unfold mbind at 1. unfold M_bind at 1.
    by rewrite create_document_step, Hf1.
  - assert (Hfind :
      find_one "comic" {["_id" := CEq (VObjectId oid)]} s1
      = (Ok (Some d),
         mkStore (collections s1) (next_oid s1) (tail (faults s1)))).
    { unfold find_one, mbind, M_bind, query.
      destruct (round_trip_cases s1) as [(-> & _ & _)|(_ & Hbad)];
        [|simpl in Hbad; congruence].
      simpl. rewrite collection_insert.
      do 2 f_equal. rewrite filter_app.
      replace (filter _ (collection s "comic")) with (@nil doc).
      - rewrite filter_cons_True; [done|].
        rewrite matches_id. apply bool_decide_eq_true_2.
        apply lookup_insert_eq.
      - symmetry. induction Hfresh as [|d0 l Hd0 _ IH]; [done|].
        rewrite filter_cons_False; [done|].
        rewrite matches_id. by rewrite bool_decide_eq_false_2. }
    unfold GET_comic.
    rewrite (get_comic_found s1 (oid_hex oid) oid d _ _
               (fresh_oid_parses (next_oid s)) Hfind
               (insert_non_empty _ _ _)
               (stored_payload_response oid payload)).
    reflexivity.
Qed.

(** X11.  A failing insert is not caught by [create_comic]: the store's
    error leaves the handler as it is (status 500, not the 503 of the
    unavailable store), and nothing has been stored. *)
Theorem create_comic_write_failure (s : store) (payload : ComicCreate) :
  hd false (faults s) = true →
  ∃ s',
    create_comic (Some s) payload = (Raise StoreError, Some s')
    ∧ same_data s s'
    ∧ http_status (create_comic (Some s) payload).1 = 500.
Proof.
  intros Hf. unfold create_comic, run.
  unfold mbind at 1 2. unfold M_bind at 1 2.
  rewrite create_document_step, Hf.
  eexists. split; [reflexivity|]. split; done.
Qed.

(** X12.  [get_comic] only reads: whatever the identifier and whatever the
    outcome, the collections and the next identifier of the store are as
    before the call. *)
Theorem get_comic_no_write (s : store) (comic_id : string) :
  ∃ s', (get_comic (Some s) comic_id).2 = Some s' ∧ same_data s s'.
Proof.
  unfold get_comic, run, try_except, raise.
  unfold mbind at 1. unfold M_bind at 1. unfold lift at 1.
  destruct (ObjectId_of_str comic_id) as [oid|e]; [|by exists s].
  unfold mbind at 1. unfold M_bind at 1.
  unfold find_one, mbind, M_bind, query.
  pose proof (round_trip_same s) as Hs.
  destruct (round_trip s) as [[[]|e] s1]; simpl in *; [|by exists s1].
  destruct (head _) as [d|]; [|by exists s1].
  destruct (bool_decide (d = ∅)); [by exists s1|].
  unfold lift. destruct (ComicResponse_new _); by exists s1.
Qed.

(** X13.  What [get_comic] returns from the store is the serialisation of
    a stored document whose [_id] is the requested identifier, and the
    returned [id] is the requested identifier in lower case; a successful
    request had a 24-character identifier. *)
Theorem get_comic_returns_requested (s : store) (comic_id : string)
    (c : ComicResponse) (db' : option store) :
  get_comic (Some s) comic_id = (Ok c, db') →
  String.length comic_id = 24%nat
  ∧ id c = lower comic_id
  ∧ ∃ d, d ∈ collection s "comic"
         ∧ d !! "_id" = Some (VObjectId (mkObjectId (lower comic_id)))
         ∧ ComicResponse_new (serialize_document d) = Ok c.
Proof.
  unfold get_comic, run, try_except, raise.
  unfold mbind at 1. unfold M_bind at 1. unfold lift at 1.
  unfold ObjectId_of_str.
  destruct (_ && _) eqn:Hvalid; [|discriminate].
  apply andb_true_iff in Hvalid as [Hlen _]. apply Nat.eqb_eq in Hlen.
  unfold mbind at 1. unfold M_bind at 1.
  unfold find_one, mbind, M_bind, query.
  pose proof (round_trip_collection s "comic") as Hc.
  destruct (round_trip s) as [[[]|e] s1]; simpl in *; [|discriminate].
  rewrite Hc.
  destruct (head _) as [d|] eqn:Hhead; [|discriminate].
  destruct (bool_decide (d = ∅)); [discriminate|].
  unfold lift.
  destruct (ComicResponse_new (serialize_document d)) as [c'|e] eqn:Hnew;
    [|discriminate].
  intros [= -> _].
  apply head_Some_elem_of, list_elem_of_filter in Hhead as [Hm Hd].
  rewrite matches_id in Hm. apply bool_decide_eq_true in Hm.
  split; [done|]. split; [|by exists d].
  apply ComicResponse_new_Ok in Hnew as (Hid & _).
  rewrite serialize_document_lookup in Hid. simpl in Hid.
  rewrite Hm in Hid. simpl in Hid. by injection Hid as <-.
Qed.

(** ** The diagnostic endpoint *)

Lemma take_chars_prefix (n : nat) (l : list ascii) :
  take_chars n l `prefix_of` l ∧ (char_count (take_chars n l) ≤ n)%nat.
Proof.
  unfold char_count. revert n.
  induction l as [|c l IH]; intros n; simpl; [split; [done|lia]|].
  destruct (is_continuation_byte c) eqn:Hc.
  - destruct (IH n) as [Hp Hn]. split; [by apply prefix_cons|].
    rewrite filter_cons_False by (by rewrite Hc). done.
  - destruct n as [|n]; [split; [apply prefix_nil | simpl; lia]|].
    destruct (IH n) as [Hp Hn]. split; [by apply prefix_cons|].
    rewrite filter_cons_True by done. simpl. lia.
Qed.

(** X14.  In the diagnostic report, [database_url] and [database_name]
    say only whether the environment variables [DATABASE_URL] and
    [DATABASE_NAME] are set to a non-empty value: what the handler wrote
    there from the handle (the configured mark, the database's name) is
    overwritten before the report is returned, so the two fields are the
    same for every state of the store handle. *)
Theorem test_database_env_fields (db db' : option handle)
    (getenv : string → option string) :
  test_database db getenv !! "database_url"
  = Some (VStr (if is_set (getenv "DATABASE_URL")
                then "✅ Set" else "❌ Not Set"))
  ∧ test_database db getenv !! "database_name"
    = Some (VStr (if is_set (getenv "DATABASE_NAME")
                  then "✅ Set" else "❌ Not Set"))
  ∧ test_database db getenv !! "database_url"
    = test_database db' getenv !! "database_url"
  ∧ test_database db getenv !! "database_name"
    = test_database db' getenv !! "database_name".
Proof.
  assert (H : ∀ d : option handle,
    test_database d getenv !! "database_url"
    = Some (env_flag getenv "DATABASE_URL")
    ∧ test_database d getenv !! "database_name"
      = Some (env_flag getenv "DATABASE_NAME")).
  { intros d. unfold test_database.
    split; [rewrite lookup_insert_ne by done|]; by rewrite lookup_insert_eq. }
  destruct (H db) as [-> ->]. destruct (H db') as [-> ->]. done.
Qed.

(** X15.  The report lists at most ten collections: the first ten names
    the store gave, in its order, and none when there is no store or when
    listing failed. *)
Theorem test_database_collections (db : option handle)
    (getenv : string → option string) :
  ∃ names,
    test_database db getenv !! "collections" = Some (VList names)
    ∧ (length names ≤ 10)%nat
    ∧ names = match db with
              | Some h => match list_collection_names h with
                          | inr collections => take 10 collections
                          | inl _ => []
                          end
              | None => []
              end.
Proof.
  eexists. split; [|split; [|reflexivity]].
  - unfold test_database.
    destruct db as [[name [msg|cols]]|]; simpl.
    + vm_compute. reflexivity.
    + rewrite !lookup_insert_ne by done. by rewrite lookup_insert_eq.
    + vm_compute. reflexivity.
  - destruct db as [[name [msg|cols]]|]; simpl; try lia.
    rewrite length_take. lia.
Qed.

(** X16.  The report always has the same six keys, and the placeholder
    status it starts from is never returned: [connection_status] is
    Connected exactly when there is a handle, and [database] is the
    not-initialised warning without a handle, the working mark when the
    collections could be listed, and otherwise the error warning followed
    by a prefix of the exception's text of at most fifty characters. *)
Theorem test_database_status (db : option handle)
    (getenv : string → option string) :
  dom (test_database db getenv)
  = list_to_set ["backend"; "database"; "database_url"; "database_name";
                 "connection_status"; "collections"]
  ∧ test_database db getenv !! "connection_status"
    = Some (VStr match db with
                 | Some _ => "Connected"
                 | None => "Not Connected"
                 end)
  ∧ test_database db getenv !! "database" ≠ Some (VStr "❌ Not Available")
  ∧ test_database db getenv !! "database" ≠ Some (VStr "✅ Available")
  ∧ test_database db getenv !! "database"
    = Some (VStr
        match db with
        | None => "⚠️  Available but not initialized"
        | Some h =>
            match list_collection_names h with
            | inr _ => "✅ Connected & Working"
            | inl message =>
                "⚠️  Connected but Error: " ++ str_prefix 50 message
            end
        end)
  ∧ (∀ message, chars (str_prefix 50 message) `prefix_of` chars message
                ∧ (char_count (chars (str_prefix 50 message)) ≤ 50)%nat).
Proof.
  split; [|split; [|split; [|split; [|split]]]].
  - unfold test_database, dict.
    destruct db as [[name [msg|cols]]|]; simpl;
      rewrite !dom_insert_L, dom_empty_L; set_solver.
  - destruct db as [[name [msg|cols]]|]; vm_compute; reflexivity.
  - destruct db as [[name [msg|cols]]|]; vm_compute; congruence.
  - destruct db as [[name [msg|cols]]|]; vm_compute; congruence.
  - unfold test_database.
    destruct db as [[name [msg|cols]]|]; simpl;
      rewrite !lookup_insert_ne by done; by rewrite lookup_insert_eq.
  - intros message. unfold str_prefix, chars.
    rewrite list_ascii_of_string_of_list_ascii. apply take_chars_prefix.
Qed.

End Service.

(** * The theorems at concrete requests *)

(** One request on the empty store seeds it and answers with the four demo
    records under store identifiers. *)
Example seeding_example :
  ∃ rs,
    GET_comics plain_text_search int_to_float_literal no_float_parse
               (Some empty_store) None None None
    = (Ok rs, Some seeded_store)
    ∧ length rs = 4%nat
    ∧ (λ r, r !! "id") <$> rs
      = [Some (VStr "000000000000000000000000");
         Some (VStr "000000000000000000000001");
         Some (VStr "000000000000000000000002");
         Some (VStr "000000000000000000000003")].
Proof. eexists. repeat split; vm_compute; reflexivity. Qed.

(** The third insert fails: two records are stored, the error is absorbed
    and the read answers with those two. *)
Example interrupted_seeding_example :
  ∃ rs,
    GET_comics plain_text_search int_to_float_literal no_float_parse
               (Some (mkStore ∅ 0 [false; false; false; true])) None None None
    = (Ok rs, Some (mkStore {["comic" := take 2 (seeded_from 0 _demo_comics)]}
                            2 []))
    ∧ length rs = 2%nat.
Proof. eexists. repeat split; vm_compute; reflexivity. Qed.

(** A failing read is not absorbed: it is outside the [try] block. *)
Example failing_read_example :
  http_status
    (GET_comics plain_text_search int_to_float_literal no_float_parse
                (Some (mkStore ∅ 0 [true; true])) None None None).1 = 500.
Proof. vm_compute. reflexivity. Qed.

(** C2, the claim as stated fails.  [stamped_comic] is a stored document
    with both timestamps present; the list endpoint returns it with its
    [id], but neither [created_at] nor [updated_at] appears in the response:
    [ComicResponse] declares no such field.  The single-comic endpoint
    answers with the same record. *)
Lemma timestamps_absent_from_response :
  is_Some (stamped_comic !! "created_at")
  ∧ is_Some (stamped_comic !! "updated_at")
  ∧ ∃ r,
      (GET_comics plain_text_search int_to_float_literal no_float_parse
                  (Some (store_with [stamped_comic])) None None None).1
      = Ok [r]
      ∧ r !! "id" = Some (VStr "65a1b2c3d4e5f60718293a4b")
      ∧ r !! "title" = Some (VStr "Arcane Academy")
      ∧ r !! "created_at" = None
      ∧ r !! "updated_at" = None
      ∧ (GET_comic plain_text_search int_to_float_literal no_float_parse
                   (Some (store_with [stamped_comic]))
                   "65a1b2c3d4e5f60718293a4b").1 = Ok r.
Proof.
  split; [by eexists|]. split; [by eexists|].
  eexists. split; [vm_compute; reflexivity|].
  repeat split; vm_compute; reflexivity.
Qed.

(** C10 at a heap holding [stamped_comic] at address 1. *)
Lemma serialize_document_no_mutation_witness :
  ∃ out h' res,
    serialize_document_at 1 {[1%positive := stamped_comic]} = (out, h')
    ∧ h' !! 1%positive = Some stamped_comic
    ∧ out ≠ 1%positive
    ∧ ({[1%positive := stamped_comic]} : heap) !! out = None
    ∧ (∀ l', l' ≠ out → h' !! l' = ({[1%positive := stamped_comic]} : heap) !! l')
    ∧ h' !! out = Some res
    ∧ res = serialize_document stamped_comic
    ∧ res !! "_id" = None.
Proof.
  apply (serialize_document_no_mutation {[1%positive := stamped_comic]} 1
           stamped_comic).
  reflexivity.
Defined.

(** C3 at [limit = 3] on the empty store. *)
Lemma list_comics_limit_witness :
  1 ≤ 3 ≤ 100
  ∧ match (GET_comics plain_text_search int_to_float_literal no_float_parse
                      (Some empty_store) None None (Some 3)).1 with
    | Ok docs => Z.of_nat (length docs) ≤ 3
    | Raise e => is_Some (Some empty_store)
                 ∧ (e = StoreError ∨ e = ValidationError)
    end.
Proof.
  split; [lia|].
  apply (proj1 (list_comics_limit plain_text_search int_to_float_literal
                  no_float_parse (Some empty_store) None None 3)).
  lia.
Defined.

(** C4 at [limit = 2], with a [q] and a [genre] that would exclude both
    records if they were read. *)
Lemma list_comics_demo_fallback_witness :
  1 ≤ 2 ≤ 100
  ∧ GET_comics plain_text_search int_to_float_literal no_float_parse
               None (Some "Arcane") (Some "Noir") (Some 2)
    = (Ok (take (Z.to_nat 2) _demo_comics), None)
  ∧ GET_comics plain_text_search int_to_float_literal no_float_parse
               None (Some "Arcane") (Some "Noir") None
    = (Ok _demo_comics, None)
  ∧ http_status
      (GET_comics plain_text_search int_to_float_literal no_float_parse
                  None (Some "Arcane") (Some "Noir") (Some 2)).1 = 200.
Proof.
  split; [lia|].
  apply (list_comics_demo_fallback plain_text_search int_to_float_literal
           no_float_parse (Some "Arcane") (Some "Noir") 2).
  lia.
Defined.

(** C9 at [limit = 10]. *)
Lemma demo_limit_length_witness :
  1 ≤ 10 ≤ 100
  ∧ length _demo_comics = 4%nat
  ∧ ∃ docs,
      GET_comics plain_text_search int_to_float_literal no_float_parse
                 None None None (Some 10) = (Ok docs, None)
      ∧ Z.of_nat (length docs) = Z.min 10 4
      ∧ (4 < 10 → Z.of_nat (length docs) < 10).
Proof.
  split; [lia|].
  apply (demo_limit_length plain_text_search int_to_float_literal
           no_float_parse None None 10).
  lia.
Defined.

(** C5 on the empty store. *)
Lemma list_comics_seeds_empty_collection_witness :
  collection empty_store "comic" = []
  ∧ ∃ k s1,
      seed_if_empty plain_text_search empty_store = (Ok tt, s1)
      ∧ list_comics plain_text_search int_to_float_literal no_float_parse
                    (Some empty_store) None None 24
        = run (read_comics plain_text_search int_to_float_literal
                           no_float_parse None None 24) s1
      ∧ collection s1 "comic" = take k (seeded_from (next_oid empty_store) _demo_comics)
      ∧ (forallb negb (take 5 (faults empty_store)) = true →
         collection s1 "comic" = seeded_from (next_oid empty_store) _demo_comics
         ∧ length (collection s1 "comic") = length _demo_comics)
      ∧ (hd false (faults s1) = false →
         ∃ rs s2,
           list_comics plain_text_search int_to_float_literal no_float_parse
                       (Some empty_store) None None 24 = (Ok rs, Some s2)
           ∧ collection s2 "comic" = collection s1 "comic"
           ∧ dump_all int_to_float_literal no_float_parse serialize_document
               (take (Z.to_nat 24)
                     (filter (λ d, matches plain_text_search
                                           (build_filter None None) d = true)
                             (collection s1 "comic"))) = Ok rs).
Proof.
  split; [reflexivity|].
  apply (list_comics_seeds_empty_collection plain_text_search
           int_to_float_literal no_float_parse empty_store None None 24).
  reflexivity.
Defined.

(** C6 at a body without [title]. *)
Lemma create_comic_rejects_incomplete_body_witness :
  "title" ∈ ["title"; "author"; "genre"]
  ∧ untitled_body !! "title" = None
  ∧ POST_comics int_to_float_literal no_float_parse
                (Some empty_store) untitled_body
    = (Raise RequestValidationError, Some empty_store)
  ∧ (POST_comics int_to_float_literal no_float_parse
                 (Some empty_store) untitled_body).2 = Some empty_store
  ∧ http_status (POST_comics int_to_float_literal no_float_parse
                             (Some empty_store) untitled_body).1 = 422.
Proof.
  split; [apply list_elem_of_here|]. split; [reflexivity|].
  apply (create_comic_rejects_incomplete_body int_to_float_literal
           no_float_parse (Some empty_store) untitled_body "title").
  - apply list_elem_of_here.
  - reflexivity.
Defined.

(** C7 at one payload, without a store and on the empty store. *)
Lemma create_comic_unavailable_or_id_witness :
  let payload :=
    mkComicCreate "Arcane Academy" "M. Kato" "Fantasy" None None
                  (Some "4.6") None in
  create_comic None payload
  = (Raise (HTTPException 503 "Database not available"), None)
  ∧ hd false (faults empty_store) = false
  ∧ ∃ s',
      create_comic (Some empty_store) payload
      = (Ok (dict [("id", VStr "000000000000000000000000")]), Some s')
      ∧ collection s' "comic"
        = [<["_id" := VObjectId (fresh_oid 0)]> (ComicCreate_dump payload)].
Proof.
  intros payload.
  destruct (create_comic_unavailable_or_id int_to_float_literal no_float_parse
              payload) as (H503 & _ & _ & Hid).
  split; [exact H503|]. split; [reflexivity|].
  destruct (Hid empty_store eq_refl) as (s' & Hs' & Hc & _).
  exists s'. split; [exact Hs' | exact Hc].
Defined.

(** C8 for the query Arcane on the empty store, which the request seeds:
    the one record returned is Arcane Academy. *)
Lemma list_comics_title_filter_witness :
  (∀ p subject, plain_pattern p = true →
                plain_text_search p "i" subject = ci_contains p subject)
  ∧ "Arcane" ≠ ""
  ∧ plain_pattern "Arcane" = true
  ∧ list_comics plain_text_search int_to_float_literal no_float_parse
                (Some empty_store) (Some "Arcane") None 24
    = (Ok arcane_answer, Some seeded_store)
  ∧ Forall (λ r, ∃ t, r !! "title" = Some (VStr t)
                      ∧ ci_contains "Arcane" t = true) arcane_answer.
Proof.
  assert (Hsearch : ∀ p subject, plain_pattern p = true →
            plain_text_search p "i" subject = ci_contains p subject)
    by (intros p subject _; reflexivity).
  assert (Hrun : list_comics plain_text_search int_to_float_literal
                   no_float_parse (Some empty_store) (Some "Arcane") None 24
                 = (Ok arcane_answer, Some seeded_store))
    by (vm_compute; reflexivity).
  split; [exact Hsearch|]. split; [discriminate|]. split; [reflexivity|].
  split; [exact Hrun|].
  apply (list_comics_title_filter plain_text_search int_to_float_literal
           no_float_parse empty_store "Arcane" None 24 arcane_answer
           (Some seeded_store) Hsearch).
  - discriminate.
  - reflexivity.
  - exact Hrun.
Defined.

(** * The further properties at concrete requests *)

(** X4 at the second record of a two-record listing. *)
Lemma listed_demo_is_gettable_witness :
  1 ≤ 2 ≤ 100
  ∧ ∃ i, default ∅ (_demo_comics !! 1%nat) !! "id" = Some (VStr i)
         ∧ GET_comic plain_text_search int_to_float_literal no_float_parse
                     None i
           = (Ok (default ∅ (_demo_comics !! 1%nat)), None).
Proof.
  split; [lia|].
  apply (listed_demo_is_gettable plain_text_search int_to_float_literal
           no_float_parse None None 2 (take 2 _demo_comics)).
  - lia.
  - vm_compute. reflexivity.
  - apply list_elem_of_lookup_2 with 1%nat. reflexivity.
Defined.

(** X5 on a store holding one comic. *)
Lemma list_comics_nonempty_no_write_witness :
  collection (store_with [stamped_comic]) "comic" ≠ []
  ∧ ∃ s',
      (list_comics plain_text_search int_to_float_literal no_float_parse
                   (Some (store_with [stamped_comic])) None None 24).2
      = Some s'
      ∧ same_data (store_with [stamped_comic]) s'.
Proof.
  assert (Hne : collection (store_with [stamped_comic]) "comic" ≠ [])
    by discriminate.
  split; [exact Hne|].
  exact (list_comics_nonempty_no_write plain_text_search int_to_float_literal
           no_float_parse (store_with [stamped_comic]) None None 24 Hne).
Defined.

(** X6 on the empty store, for two different requests. *)
Lemma list_comics_seeds_once_witness :
  collection empty_store "comic" = []
  ∧ forallb negb (take 5 (faults empty_store)) = true
  ∧ ∃ s1 s2,
      (list_comics plain_text_search int_to_float_literal no_float_parse
                   (Some empty_store) None None 24).2 = Some s1
      ∧ (list_comics plain_text_search int_to_float_literal no_float_parse
                     (Some s1) (Some "Arcane") None 3).2 = Some s2
      ∧ collection s1 "comic" = seeded_from (next_oid empty_store) _demo_comics
      ∧ collection s2 "comic" = seeded_from (next_oid empty_store) _demo_comics
      ∧ length (collection s2 "comic") = 4%nat.
Proof.
  split; [reflexivity|]. split; [reflexivity|].
  apply (list_comics_seeds_once plain_text_search int_to_float_literal
           no_float_parse empty_store None None (Some "Arcane") None 24 3);
    reflexivity.
Defined.

(** X7 for the genre Fantasy on the empty store, which the request seeds. *)
Lemma list_comics_genre_filter_witness :
  "Fantasy" ≠ ""
  ∧ list_comics plain_text_search int_to_float_literal no_float_parse
                (Some empty_store) None (Some "Fantasy") 24
    = (Ok arcane_answer, Some seeded_store)
  ∧ Forall (λ r, r !! "genre" = Some (VStr "Fantasy")) arcane_answer.
Proof.
  assert (Hrun : list_comics plain_text_search int_to_float_literal
                   no_float_parse (Some empty_store) None (Some "Fantasy") 24
                 = (Ok arcane_answer, Some seeded_store))
    by (vm_compute; reflexivity).
  split; [discriminate|]. split; [exact Hrun|].
  apply (list_comics_genre_filter plain_text_search int_to_float_literal
           no_float_parse empty_store None "Fantasy" 24 arcane_answer
           (Some seeded_store)).
  - discriminate.
  - exact Hrun.
Defined.

(** X8 with an empty [q] on a store holding one comic. *)
Lemma list_comics_unfiltered_witness :
  collection (store_with [stamped_comic]) "comic" ≠ []
  ∧ faults (store_with [stamped_comic]) = []
  ∧ list_comics plain_text_search int_to_float_literal no_float_parse
                (Some (store_with [stamped_comic])) (Some "") None 24
    = (dump_all int_to_float_literal no_float_parse serialize_document
         (take (Z.to_nat 24) (collection (store_with [stamped_comic]) "comic")),
       Some (store_with [stamped_comic])).
Proof.
  assert (Hne : collection (store_with [stamped_comic]) "comic" ≠ [])
    by discriminate.
  split; [exact Hne|]. split; [reflexivity|].
  apply (list_comics_unfiltered plain_text_search int_to_float_literal
           no_float_parse (store_with [stamped_comic]) (Some "") None 24).
  - right. reflexivity.
  - left. reflexivity.
  - exact Hne.
  - reflexivity.
Defined.

(** X9 for the limits 1 and 3 without a store. *)
Lemma list_comics_limit_prefix_witness :
  1 ≤ 1 ∧ 1 ≤ 3 ∧ 3 ≤ 100
  ∧ take 1 _demo_comics = take (Z.to_nat 1) (take 3 _demo_comics).
Proof.
  split; [lia|]. split; [lia|]. split; [lia|].
  apply (list_comics_limit_prefix plain_text_search int_to_float_literal
           no_float_parse None None None 1 3).
  - lia.
  - lia.
  - lia.
  - vm_compute. reflexivity.
  - vm_compute. reflexivity.
Defined.

(** X10 on the empty store. *)
Lemma create_then_get_witness :
  let payload :=
    mkComicCreate "Arcane Academy" "M. Kato" "Fantasy" None None
                  (Some "4.6") (Some ["magic"; "school"]) in
  hd false (faults empty_store) = false
  ∧ hd false (tail (faults empty_store)) = false
  ∧ ∃ new_id s1 s2,
      create_comic (Some empty_store) payload
      = (Ok (dict [("id", VStr new_id)]), Some s1)
      ∧ GET_comic plain_text_search int_to_float_literal no_float_parse
                  (Some s1) new_id
        = (Ok (<["id" := VStr new_id]> (ComicCreate_dump payload)), Some s2)
      ∧ same_data s1 s2.
Proof.
  intros payload. split; [reflexivity|]. split; [reflexivity|].
  apply (create_then_get plain_text_search int_to_float_literal no_float_parse
           empty_store payload).
  - reflexivity.
  - reflexivity.
  - apply Forall_nil_2.
Defined.

(** X11 on a store whose next round trip fails. *)
Lemma create_comic_write_failure_witness :
  let payload :=
    mkComicCreate "Arcane Academy" "M. Kato" "Fantasy" None None None None in
  hd false (faults (mkStore ∅ 0 [true])) = true
  ∧ ∃ s',
      create_comic (Some (mkStore ∅ 0 [true])) payload
      = (Raise StoreError, Some s')
      ∧ same_data (mkStore ∅ 0 [true]) s'
      ∧ http_status (create_comic (Some (mkStore ∅ 0 [true])) payload).1 = 500.
Proof.
  intros payload. split; [reflexivity|].
  apply (create_comic_write_failure (mkStore ∅ 0 [true]) payload).
  reflexivity.
Defined.

(** X13 for an identifier written in upper case. *)
Lemma get_comic_returns_requested_witness :
  let c := mkComicResponse "65a1b2c3d4e5f60718293a4b" "Arcane Academy"
                           "M. Kato" "Fantasy" None None None None in
  get_comic plain_text_search int_to_float_literal no_float_parse
            (Some (store_with [stamped_comic])) "65A1B2C3D4E5F60718293A4B"
  = (Ok c, Some (store_with [stamped_comic]))
  ∧ String.length "65A1B2C3D4E5F60718293A4B" = 24%nat
  ∧ id c = lower "65A1B2C3D4E5F60718293A4B"
  ∧ ∃ d, d ∈ collection (store_with [stamped_comic]) "comic"
         ∧ d !! "_id"
           = Some (VObjectId (mkObjectId (lower "65A1B2C3D4E5F60718293A4B")))
         ∧ ComicResponse_new int_to_float_literal no_float_parse
                             (serialize_document d) = Ok c.
Proof.
  intros c.
  assert (Hrun :
    get_comic plain_text_search int_to_float_literal no_float_parse
              (Some (store_with [stamped_comic])) "65A1B2C3D4E5F60718293A4B"
    = (Ok c, Some (store_with [stamped_comic])))
    by (vm_compute; reflexivity).
  split; [exact Hrun|].
  exact (get_comic_returns_requested plain_text_search int_to_float_literal
           no_float_parse (store_with [stamped_comic])
           "65A1B2C3D4E5F60718293A4B" c (Some (store_with [stamped_comic]))
           Hrun).
Defined.
